(** * aviary: environments, tool-call dispatch, task datasets and helpers

    A shallow embedding of [aviary/env.py], [aviary/utils.py] and
    [aviary/gsm8k/env.py].

    - [Py]       Python exceptions and the outcome of a fallible evaluation.
    - [Asyncio]  coroutines as resumptions over a shared state, [await],
                 [asyncio.gather] under an arbitrary interleaving.
    - [Env]      [Environment.filter_invalid_tool_calls],
                 [Environment.exec_tool_calls], [is_coroutine_callable].
    - [Dataset]  [TaskDataset.iter_batches].
    - [Utils]    [partial_format] over a model of [str.format].
    - [GSM8k]    [GSM8kDataset]: the splits of the source, over a model of
                 the data frame. *)

From stdpp Require Import gmap strings list.
From Stdlib Require Import ZArith Lia Permutation DecimalString.

#[local] Set Warnings "-register-all".
#[local] Open Scope string_scope.

(* ===================================================================== *)
(** * Python outcomes *)
(* ===================================================================== *)

Module Py.

(** An instance of a subclass of [Exception]: its class name, [str(exc)]
    and [bool(exc)].  An instance is truthy unless its class defines
    [__bool__] or [__len__] and answers false or zero.  Signals that derive
    from [BaseException] only ([KeyboardInterrupt], [SystemExit],
    [asyncio.CancelledError]) are not exceptions in this sense and are not
    modelled. *)
Record PyExc := mkExc { exc_class : string; exc_str : string; exc_bool : bool }.

Definition ValueError (msg : string) : PyExc := mkExc "ValueError" msg true.
Definition TypeError (msg : string) : PyExc := mkExc "TypeError" msg true.
Definition IndexError (msg : string) : PyExc := mkExc "IndexError" msg true.
(** [str(KeyError(k))] is the repr of the key. *)
Definition KeyError (key : string) : PyExc :=
  mkExc "KeyError" ("'" +:+ key +:+ "'") true.
(** Reading a local variable that no assignment has bound (the text of
    Python 3.11 and later, which [typing.Self] in aviary/env.py requires). *)
Definition UnboundLocalError (name : string) : PyExc :=
  mkExc "UnboundLocalError"
    ("cannot access local variable '" +:+ name
     +:+ "' where it is not associated with a value") true.

#[global] Instance PyExc_eq_dec : EqDecision PyExc.
Proof. solve_decision. Defined.

(** ["\n"] *)
Definition newline : string := String (Ascii.ascii_of_nat 10) EmptyString.

(** The outcome of evaluating an expression: a value, or a raised exception. *)
Inductive Outcome (A : Type) : Type :=
| Return (a : A)
| Raise (e : PyExc).
Arguments Return {A} a.
Arguments Raise {A} e.

#[global] Instance Outcome_ret : MRet Outcome := fun A a => Return a.
#[global] Instance Outcome_bind : MBind Outcome := fun A B f o =>
  match o with
  | Return a => f a
  | Raise e => Raise e
  end.
#[global] Instance Outcome_fmap : FMap Outcome := fun A B f o =>
  match o with
  | Return a => Return (f a)
  | Raise e => Raise e
  end.

(** The returned value, when there is one. *)
Definition returned {A} (o : Outcome A) : option A :=
  match o with
  | Return a => Some a
  | Raise _ => None
  end.

End Py.
Export Py.

(* ===================================================================== *)
(** * Coroutines, await and gather *)
(* ===================================================================== *)

Module Asyncio.
Section Coroutines.

(** The objects the tools share (the environment state, anything reachable
    from the keyword arguments). *)
Context {St : Type}.

(** A coroutine is resumed on the current state and runs one segment, which
    nothing interleaves with: the segment either finishes the coroutine or
    suspends it, leaving the rest to be resumed later.  The body of a function
    run on a worker thread is given the same way, a segment being one of its
    atomic steps. *)
Inductive Step (A C : Type) : Type :=
| Done (st : St) (o : Outcome A)
| Yield (st : St) (rest : C).
Arguments Done {A C} st o.
Arguments Yield {A C} st rest.

Inductive Coro (A : Type) : Type :=
| Seg (resume : St -> Step A (Coro A)).
Arguments Seg {A} resume.

Definition resume {A} (c : Coro A) : St -> Step A (Coro A) :=
  match c with Seg k => k end.

(** A coroutine that finishes in its first segment without touching the state. *)
Definition finished {A} (o : Outcome A) : Coro A := Seg (fun st => Done st o).

(** [try: x = await c / except Exception: ...] followed by the code after
    it: [h] receives how [c] ended and continues in the same segment. *)
Fixpoint coro_catch {A B} (c : Coro A) (h : Outcome A -> Coro B) : Coro B :=
  match c with
  | Seg k => Seg (fun st =>
      match k st with
      | Done st' o => resume (h o) st'
      | Yield st' c' => Yield st' (coro_catch c' h)
      end)
  end.

(** [x = await c; f x]: an exception of [c] propagates. *)
Definition coro_bind {A B} (c : Coro A) (f : A -> Coro B) : Coro B :=
  coro_catch c (fun o =>
    match o with
    | Return a => f a
    | Raise e => finished (Raise e)
    end).

(** Running a coroutine to its end with nothing else scheduled in between:
    awaiting it from a task that is alone, or calling a synchronous function
    on the event-loop thread. *)
Fixpoint run_all {A} (c : Coro A) (st : St) : St * Outcome A :=
  match c with
  | Seg k =>
      match k st with
      | Done st' o => (st', o)
      | Yield st' c' => run_all c' st'
      end
  end.

(** A plain (synchronous) call of a body: one segment. *)
Definition atomic {A} (c : Coro A) : Coro A :=
  Seg (fun st => let '(st', o) := run_all c st in Done st' o).

(** [[await c for c in cs]]: each coroutine is awaited to its end before the
    next one starts; the first exception ends the loop. *)
Fixpoint await_each {A} (cs : list (Coro A)) (st : St) : St * Outcome (list A) :=
  match cs with
  | [] => (st, Return [])
  | c :: rest =>
      match run_all c st with
      | (st', Return a) =>
          let '(st'', r) := await_each rest st' in (st'', cons a <$> r)
      | (st', Raise e) => (st', Raise e)
      end
  end.

(** A task of [asyncio.gather]: its result, or the coroutine still to resume. *)
Definition Slot (A : Type) : Type := A + Coro A.

(** Once the schedule is used up the remaining tasks finish in list order. *)
Fixpoint gather_drain {A} (slots : list (Slot A)) (st : St)
  : St * Outcome (list A) :=
  match slots with
  | [] => (st, Return [])
  | inl a :: rest =>
      let '(st', r) := gather_drain rest st in (st', cons a <$> r)
  | inr c :: rest =>
      match run_all c st with
      | (st', Return a) =>
          let '(st'', r) := gather_drain rest st' in (st'', cons a <$> r)
      | (st', Raise e) => (st', Raise e)
      end
  end.

(** [sched] lists which task is resumed next.  The result of task [i] is
    stored in slot [i]; the first exception raised by any task is propagated
    at once (the other tasks are left running and their later effects are not
    part of this call); an entry naming a finished or absent task is skipped. *)
Fixpoint gather_sched {A} (sched : list nat) (slots : list (Slot A)) (st : St)
  : St * Outcome (list A) :=
  match sched with
  | [] => gather_drain slots st
  | i :: sched' =>
      match slots !! i with
      | Some (inr c) =>
          match resume c st with
          | Done st' (Return a) => gather_sched sched' (<[i := inl a]> slots) st'
          | Done st' (Raise e) => (st', Raise e)
          | Yield st' c' => gather_sched sched' (<[i := inr c']> slots) st'
          end
      | _ => gather_sched sched' slots st
      end
  end.

(** [await asyncio.gather] over the coroutines [cs], without [return_exceptions]. *)
Definition gather {A} (sched : list nat) (cs : list (Coro A)) (st : St)
  : St * Outcome (list A) :=
  gather_sched sched (inr <$> cs) st.

(** [runs c ins o]: resumed on the states [ins], one per segment, [c] ends
    with [o].  The states are whatever the other tasks left behind. *)
Inductive runs {A} : Coro A -> list St -> Outcome A -> Prop :=
| runs_done c st st' o :
    resume c st = Done st' o -> runs c [st] o
| runs_yield c st st' c' ins o :
    resume c st = Yield st' c' -> runs c' ins o -> runs c (st :: ins) o.

(** [settles o c]: however [c] is scheduled it leaves the state as it found
    it and ends with [o]: its result does not depend on the interleaving. *)
Inductive settles {A} (o : Outcome A) : Coro A -> Prop :=
| settles_seg c :
    (forall st, resume c st = Done st o
                \/ exists c', resume c st = Yield st c' /\ settles o c') ->
    settles o c.

(** [c] can end with [o]. *)
Definition produces {A} (c : Coro A) (o : Outcome A) : Prop :=
  exists ins, runs c ins o.

(** What awaiting the coroutines [cs] may answer: a list holding, at each
    position, a result of the coroutine at that position; or an exception
    that one of them raised. *)
Definition answers {A} (cs : list (Coro A)) (r : Outcome (list A)) : Prop :=
  match r with
  | Return xs => Forall2 (fun c x => produces c (Return x)) cs xs
  | Raise e => Exists (fun c => produces c (Raise e)) cs
  end.

(** What a slot of a running [gather] holds, for the coroutine it started from. *)
Definition slot_of {A} (c0 : Coro A) (s : Slot A) : Prop :=
  match s with
  | inl a => produces c0 (Return a)
  | inr c => forall o, produces c o -> produces c0 o
  end.

(** The same for a coroutine that settles on [o]. *)
Definition slot_settles {A} (o : Outcome A) (s : Slot A) : Prop :=
  match s with
  | inl a => o = Return a
  | inr c => settles o c
  end.

End Coroutines.
Arguments Coro : clear implicits.
Arguments Step : clear implicits.
Arguments Slot : clear implicits.
Arguments Done {St A C} st o.
Arguments Yield {St A C} st rest.
Arguments Seg {St A} resume.
End Asyncio.
Export Asyncio.

(* ===================================================================== *)
(** * aviary/env.py: environments and tool calls *)
(* ===================================================================== *)

Module Env.

(** What the sources use of [pydantic.BaseModel] instances. *)
Class Pydantic (Model : Type) := {
  (** [type(m).__name__] *)
  model_class_name : Model -> string;
  (** [m.model_dump_json(exclude_none=..., by_alias=...)] *)
  model_dump_json : Model -> bool -> bool -> Outcome string;
}.

Section Environment.

Context {St : Type} {Model : Type} `{!Pydantic Model}.

(** Python values, as far as [exec_tool_calls] tells them apart. *)
Inductive PyVal : Type :=
| VNone
| VBool (b : bool)
| VInt (z : Z)
| VStr (s : string)
| VList (l : list PyVal)
| VModel (m : Model)
| VAwaitable (c : Coro St PyVal)
| VObject (type_name : string).

Definition type_name_of (v : PyVal) : string :=
  match v with
  | VNone => "NoneType"
  | VBool _ => "bool"
  | VInt _ => "int"
  | VStr _ => "str"
  | VList _ => "list"
  | VModel m => model_class_name m
  | VAwaitable _ => "coroutine"
  | VObject t => t
  end.

(** [isinstance(v, int)]; [bool] is a subclass of [int]. *)
Definition isinstance_int (v : PyVal) : bool :=
  match v with
  | VInt _ | VBool _ => true
  | _ => false
  end.

(** [await v] *)
Definition await_value (v : PyVal) : Coro St PyVal :=
  match v with
  | VAwaitable c => c
  | _ => finished (Raise (TypeError
           ("object " +:+ type_name_of v +:+ " can't be used in 'await' expression")))
  end.

(** [json.dumps], from the standard library. *)
Context (json_dumps : PyVal -> Outcome string).

(** ** Callables *)

(** What [is_coroutine_callable] inspects of an object. *)
Inductive PyObjKind : Type :=
| FunctionOrMethod (co_flags : Z)
    (** an instance of [FunctionType] or [MethodType], with [__code__.co_flags] *)
| CallableObject (call_co_flags : Z)
    (** another callable whose [__call__] is a function or a method, with
        [__call__.__code__.co_flags] *)
| OtherCallable
    (** any other callable: a builtin, a [functools.partial], ... *)
| NotCallable (type_name : string).

Definition CO_COROUTINE : Z := 0x80.

Record PyCallable : Type := {
  fn_kind : PyObjKind;
  (** the names in [inspect.signature(fn).parameters] of a callable, or the
      exception that [inspect.signature] raises ([ValueError] for a builtin
      without a signature) *)
  fn_signature : Outcome (list string);
  (** [hasattr(fn, "requires_state")] *)
  fn_has_requires_state : bool;
  (** [repr(fn)] *)
  fn_repr : string;
  (** how the error messages of a call name [fn]: [qualname()], with the
      module and a dot in front unless the module is [builtins] *)
  fn_str : string;
  (** the body run on the keyword arguments, in atomic steps *)
  fn_body : gmap string PyVal -> Coro St PyVal;
}.

(** [inspect.signature(fn).parameters]: an object that is not callable has
    no signature. *)
Definition signature_parameters (fn : PyCallable) : Outcome (list string) :=
  match fn_kind fn with
  | NotCallable _ => Raise (TypeError (fn_repr fn +:+ " is not a callable object"))
  | _ => fn_signature fn
  end.

(** The code object was compiled from [async def]: calling it runs nothing
    and returns a coroutine object. *)
Definition is_async_def (fn : PyCallable) : bool :=
  match fn_kind fn with
  | FunctionOrMethod co_flags => Z.testbit co_flags 7
  | CallableObject co_flags => Z.testbit co_flags 7
  | _ => false
  end.

(** The steps of evaluating [fn] on the keyword arguments [kw]. *)
Definition call_steps (fn : PyCallable) (kw : gmap string PyVal) : Coro St PyVal :=
  match fn_kind fn with
  | NotCallable t =>
      finished (Raise (TypeError ("'" +:+ t +:+ "' object is not callable")))
  | _ =>
      if is_async_def fn then finished (Return (VAwaitable (fn_body fn kw)))
      else fn_body fn kw
  end.

(** [fn] on the keyword arguments [kw] on the event-loop thread. *)
Definition py_call (fn : PyCallable) (kw : gmap string PyVal) : Coro St PyVal :=
  atomic (call_steps fn kw).

(** [asyncio.to_thread] of [fn] on [kw]: the steps run on a worker thread. *)
Definition to_thread (fn : PyCallable) (kw : gmap string PyVal) : Coro St PyVal :=
  call_steps fn kw.

(** The keyword arguments of a call that unpacks mappings: the items of
    [update], in their order, are added to [dict]; the first key that is
    already there is a [TypeError], which names the called object. *)
Fixpoint dict_merge (funcstr : string) (dict : gmap string PyVal)
    (update : list (string * PyVal)) : Outcome (gmap string PyVal) :=
  match update with
  | [] => Return dict
  | (key, value) :: rest =>
      match dict !! key with
      | Some _ =>
          Raise (TypeError (funcstr +:+ " got multiple values for keyword argument '"
                            +:+ key +:+ "'"))
      | None => dict_merge funcstr (<[key := value]> dict) rest
      end
  end.

(** The keyword arguments of a call of [func] on [arguments] unpacked and
    then [kwargs] unpacked. *)
Definition merge_kwargs (funcstr : string) (arguments : gmap string PyVal)
    (kwargs : list (string * PyVal)) : Outcome (gmap string PyVal) :=
  dict_merge funcstr arguments kwargs.

(** How a [TypeError] names [asyncio.to_thread]. *)
Definition to_thread_str : string := "asyncio.threads.to_thread()".

(** aviary/utils.py, [is_coroutine_callable]. *)
Definition is_coroutine_callable (obj : PyCallable) : bool :=
  match fn_kind obj with
  | FunctionOrMethod co_flags =>
      isinstance_int (VInt (Z.land co_flags CO_COROUTINE))
  | CallableObject call_co_flags =>
      isinstance_int (VInt (Z.land call_co_flags CO_COROUTINE))
  | _ => false
  end.

(** ** Tools and messages

    [aviary.tools] declares these classes; the fields are those the sources
    read. *)

Record FunctionInfo : Type := { info_name : string; info_description : string }.

Record Tool : Type := { tool_info : FunctionInfo; _tool_fn : PyCallable }.

Record ToolCallFunction : Type := {
  function_name : string;
  function_arguments : gmap string PyVal;
}.

Record ToolCall : Type := { call_id : string; call_function : ToolCallFunction }.

Record ToolRequestMessage : Type := {
  req_role : string;
  req_content : option string;
  req_function_call : option string;
  tool_calls : list ToolCall;
}.

Record ToolResponseMessage : Type := {
  resp_role : string;
  resp_content : string;
  resp_name : string;
  tool_call_id : string;
}.

(** Modelled from the spec: [ToolResponseMessage.from_call], which
    [aviary.tools] defines and the sources only call.  The response is
    "paired back to its originating request by identifier": it carries the
    call's id, the name of the called function and the given content. *)
Definition from_call (call : ToolCall) (content : string) : ToolResponseMessage :=
  {| resp_role := "tool";
     resp_content := content;
     resp_name := function_name (call_function call);
     tool_call_id := call_id call |}.

(** ** Environment *)

Record Environment : Type := { tools : list Tool }.

(** [next((t for t in self.tools if t.info.name == name), None)] *)
Definition find_tool (self : Environment) (name : string) : option Tool :=
  find (fun t => bool_decide (info_name (tool_info t) = name)) (tools self).

Definition filter_invalid_tool_calls (self : Environment) (message : ToolRequestMessage)
  : ToolRequestMessage * ToolRequestMessage :=
  let '(valid, invalid) :=
    fold_left
      (fun '(valid, invalid) tool_call =>
         match find_tool self (function_name (call_function tool_call)) with
         | Some _ => ((valid ++ [tool_call])%list, invalid)
         | None => (valid, (invalid ++ [tool_call])%list)
         end)
      (tool_calls message) ([], []) in
  let mk x :=
    {| req_role := req_role message;
       req_content := req_content message;
       req_function_call := req_function_call message;
       tool_calls := x |} in
  (mk valid, mk invalid).

(** The filtering of [state] out of [function_kwargs], which are in the
    order of the call.  The signature is inspected only when [state] is among
    them, and [inspect.signature] may raise. *)
Definition filter_kwargs (fn : PyCallable) (function_kwargs : list (string * PyVal))
  : Outcome (list (string * PyVal)) :=
  if bool_decide ("state" ∈ function_kwargs.*1) then
    parameters ← signature_parameters fn;
    let need_to_filter :=
      negb (bool_decide ("state" ∈ parameters)) && negb (fn_has_requires_state fn) in
    Return (if need_to_filter
            then filter (fun kv => kv.1 <> "state") function_kwargs
            else function_kwargs)
  else Return function_kwargs.

(** The body of the second [try] of [_exec_tool_call]: the tool function is
    awaited directly when [is_coroutine_callable] says so, and run on a
    thread otherwise. *)
Definition invoke_tool (tool : Tool) (tool_call : ToolCall)
    (filtered_kwargs : list (string * PyVal)) : Coro St PyVal :=
  let arguments := function_arguments (call_function tool_call) in
  if is_coroutine_callable (_tool_fn tool)
  then match merge_kwargs (fn_str (_tool_fn tool)) arguments filtered_kwargs with
       | Raise e => finished (Raise e)
       | Return kw => coro_bind (py_call (_tool_fn tool) kw) await_value
       end
  else match merge_kwargs to_thread_str arguments filtered_kwargs with
       | Raise e => finished (Raise e)
       | Return kw => to_thread (_tool_fn tool) kw
       end.

(** The message built for a suppressed exception. *)
Definition failure_content (tool : Tool) (tool_exc : PyExc) : string :=
  let logger_msg := "Failed to execute tool call for tool " +:+ info_name (tool_info tool) in
  logger_msg +:+ ":" +:+ newline +:+ exc_str tool_exc.

(** The string made of what the tool function returned. *)
Definition content_string (content : PyVal) : Outcome string :=
  match content with
  | VStr s => Return s
  | VModel m => model_dump_json m true true
  | _ => json_dumps content
  end.

(** The filtering of [state] is outside the [try], so an exception of
    [inspect.signature] leaves whatever [handle_tool_exc] is.  [if tool_exc:]
    tests the caught exception for truth: after a falsy one the branch is not
    taken and [content], which no assignment has bound, is read.  The logging
    has no effect on the result. *)
Definition _exec_tool_call (self : Environment) (handle_tool_exc : bool)
    (function_kwargs : list (string * PyVal)) (tool_call : ToolCall)
  : Coro St ToolResponseMessage :=
  match find_tool self (function_name (call_function tool_call)) with
  | None =>
      finished (Raise (ValueError
        (function_name (call_function tool_call) +:+ " not a valid function.")))
  | Some tool =>
      match filter_kwargs (_tool_fn tool) function_kwargs with
      | Raise e => finished (Raise e)
      | Return filtered_kwargs =>
          coro_catch (invoke_tool tool tool_call filtered_kwargs) (fun r =>
            match r with
            | Raise exc =>
                if handle_tool_exc
                then if exc_bool exc
                     then finished (Return (from_call tool_call (failure_content tool exc)))
                     else finished (Raise (UnboundLocalError "content"))
                else finished (Raise exc)
            | Return content =>
                finished (from_call tool_call <$> content_string content)
            end)
      end
  end.

(** [function_kwargs] holds the keyword arguments of the call in their
    order, each key once.  [sched] is the order in which the event loop and
    the worker threads advance the calls when they run concurrently. *)
Definition exec_tool_calls (self : Environment) (message : ToolRequestMessage)
    (ordered handle_tool_exc : bool) (function_kwargs : list (string * PyVal))
    (sched : list nat) (st : St) : St * Outcome (list ToolResponseMessage) :=
  let calls := _exec_tool_call self handle_tool_exc function_kwargs <$> tool_calls message in
  if negb ordered then gather sched calls st
  else await_each calls st.

(** ** Vocabulary of the statements *)

Definition called_name (tool_call : ToolCall) : string :=
  function_name (call_function tool_call).

Definition tool_names (self : Environment) : list string :=
  (fun t => info_name (tool_info t)) <$> tools self.

(** The end of [_exec_tool_call], from how the tool function ended. *)
Definition respond (tool : Tool) (handle_tool_exc : bool) (tool_call : ToolCall)
    (r : Outcome PyVal) : Outcome ToolResponseMessage :=
  match r with
  | Raise exc =>
      if handle_tool_exc
      then if exc_bool exc then Return (from_call tool_call (failure_content tool exc))
           else Raise (UnboundLocalError "content")
      else Raise exc
  | Return content => from_call tool_call <$> content_string content
  end.

(** A pure function of its arguments: on given keyword arguments its body
    leaves the shared state alone and ends the same way whatever the state
    and the interleaving; so does the awaitable it may return. *)
Definition pure_fn (fn : PyCallable) : Prop :=
  forall kw, exists o,
    settles o (fn_body fn kw)
    /\ forall c, o = Return (VAwaitable c) -> exists o', settles o' c.

End Environment.

Arguments PyVal : clear implicits.
Arguments PyCallable : clear implicits.
Arguments Tool : clear implicits.
Arguments ToolCallFunction : clear implicits.
Arguments ToolCall : clear implicits.
Arguments ToolRequestMessage : clear implicits.
Arguments Environment : clear implicits.

End Env.
Export Env.

(* ===================================================================== *)
(** * aviary/env.py: task datasets *)
(* ===================================================================== *)

Module Dataset.

(** The slices [l[:k]] and [l[k:]] of a Python list; a negative [k] counts
    from the end. *)
Definition slice_to {A} (k : Z) (l : list A) : list A :=
  if (0 <=? k)%Z then take (Z.to_nat k) l
  else take (length l - Z.to_nat (- k)) l.

Definition slice_from {A} (k : Z) (l : list A) : list A :=
  if (0 <=? k)%Z then drop (Z.to_nat k) l
  else drop (length l - Z.to_nat (- k)) l.

(** The number of batches, [ceil(n / b)]. *)
Definition ceil_div (n b : nat) : nat := (n + b - 1) / b.

(** [random.shuffle]: some rearrangement of the list. *)
Record Shuffle : Type := {
  shuffled : list nat -> list nat;
  shuffled_perm : forall l, Permutation l (shuffled l);
}.

Section TaskDataset.

Context {Environment : Type}.

Record TaskDataset : Type := {
  (** [len(self)]; [None] when [__len__] raises [TypeError] *)
  dataset_len : option nat;
  get_new_env_by_idx : nat -> Environment;
  get_new_env : Environment;
}.

(** The loop [while idcs:] of the finite branch: the batches of indices
    yielded within [fuel] iterations, and whether the loop has ended. *)
Fixpoint index_batches (fuel : nat) (batch_size : Z) (idcs : list nat)
  : list (list nat) * bool :=
  match idcs with
  | [] => ([], true)
  | _ :: _ =>
      match fuel with
      | O => ([], false)
      | S fuel' =>
          let batch_idcs := slice_to batch_size idcs in
          let idcs' := slice_from batch_size idcs in
          let '(batches, ended) := index_batches fuel' batch_size idcs' in
          (batch_idcs :: batches, ended)
      end
  end.

(** The indices the finite branch starts from. *)
Definition initial_idcs (rng : Shuffle) (n : nat) (shuffle : bool) : list nat :=
  let idcs := seq 0 n in
  if shuffle then shuffled rng idcs else idcs.

(** The generator [iter_batches]: the batches it yields when asked [fuel]
    times, and whether it is exhausted by then. *)
Definition iter_batches (self : TaskDataset) (rng : Shuffle) (batch_size : Z)
    (shuffle : bool) (fuel : nat) : list (list Environment) * bool :=
  match dataset_len self with
  | None =>
      (replicate fuel (replicate (Z.to_nat batch_size) (get_new_env self)), false)
  | Some n =>
      let '(batches, ended) :=
        index_batches fuel batch_size (initial_idcs rng n shuffle) in
      (fmap (M := list) (fmap (M := list) (get_new_env_by_idx self)) batches, ended)
  end.

End TaskDataset.
Arguments TaskDataset : clear implicits.

End Dataset.
Export Dataset.

(* ===================================================================== *)
(** * aviary/utils.py: partial_format *)
(* ===================================================================== *)

Module Utils.

(** What [str.format] asks of the objects it formats. *)
Class PyObject (V : Type) := {
  (** the attribute and item lookups written after the argument name,
      [.attr] and [[key]], applied in turn *)
  py_getpath : V -> string -> Outcome V;
  (** the conversion [!c] *)
  py_convert : V -> Ascii.ascii -> Outcome V;
  (** [format(v, spec)] *)
  py_format : V -> string -> Outcome string;
}.

(** ** The markup of a format string (CPython, [MarkupIterator_next] and
    [parse_field]) *)

Record Field : Type := {
  field_name : string;
  conversion : option Ascii.ascii;
  format_spec : string;
  (** the format spec holds replacement fields of its own *)
  spec_needs_expanding : bool;
}.

#[global] Instance Field_eq_dec : EqDecision Field.
Proof. solve_decision. Defined.

Inductive Markup : Type :=
| Literal (text : string)
| Replacement (f : Field).

Inductive LexState : Type :=
| InLiteral (text : string)
| InFieldName (name : string)
| InBrackets (name : string)
| AtConversion (name : string)
| InFormatSpec (name : string) (conv : option Ascii.ascii) (spec : string)
    (count : nat) (needs_expanding : bool).

Definition snoc (s : string) (c : Ascii.ascii) : string := s +:+ String c "".

Definition open_brace : Ascii.ascii := Ascii.ascii_of_nat 123.
Definition close_brace : Ascii.ascii := Ascii.ascii_of_nat 125.
Definition open_bracket : Ascii.ascii := Ascii.ascii_of_nat 91.
Definition close_bracket : Ascii.ascii := Ascii.ascii_of_nat 93.
Definition colon : Ascii.ascii := Ascii.ascii_of_nat 58.
Definition bang : Ascii.ascii := Ascii.ascii_of_nat 33.
Definition dot : Ascii.ascii := Ascii.ascii_of_nat 46.

Definition emit (m : Markup) (r : list Markup * option PyExc)
  : list Markup * option PyExc :=
  (m :: r.1, r.2).

Definition syntax_error (msg : string) : list Markup * option PyExc :=
  ([], Some (ValueError msg)).

(** The markup read from [s] in state [q], up to the first syntax error. *)
Fixpoint markup_from (q : LexState) (s : string) {struct s}
  : list Markup * option PyExc :=
  match q with
  | InLiteral text =>
      match s with
      | EmptyString => ([Literal text], None)
      | String c rest =>
          if Ascii.eqb c open_brace then
            match rest with
            | EmptyString => syntax_error "Single '{' encountered in format string"
            | String c' rest' =>
                if Ascii.eqb c' open_brace
                then markup_from (InLiteral (snoc text c)) rest'
                else emit (Literal text) (markup_from (InFieldName "") rest)
            end
          else if Ascii.eqb c close_brace then
            match rest with
            | String c' rest' =>
                if Ascii.eqb c' close_brace
                then markup_from (InLiteral (snoc text c)) rest'
                else syntax_error "Single '}' encountered in format string"
            | EmptyString => syntax_error "Single '}' encountered in format string"
            end
          else markup_from (InLiteral (snoc text c)) rest
      end
  | InFieldName name =>
      match s with
      | EmptyString => syntax_error "expected '}' before end of string"
      | String c rest =>
          if Ascii.eqb c open_brace then syntax_error "unexpected '{' in field name"
          else if Ascii.eqb c open_bracket
          then markup_from (InBrackets (snoc name c)) rest
          else if Ascii.eqb c close_brace
          then emit (Replacement {| field_name := name; conversion := None;
                                    format_spec := ""; spec_needs_expanding := false |})
                    (markup_from (InLiteral "") rest)
          else if Ascii.eqb c colon
          then markup_from (InFormatSpec name None "" 1 false) rest
          else if Ascii.eqb c bang then markup_from (AtConversion name) rest
          else markup_from (InFieldName (snoc name c)) rest
      end
  | InBrackets name =>
      match s with
      | EmptyString => syntax_error "expected '}' before end of string"
      | String c rest =>
          if Ascii.eqb c close_bracket
          then markup_from (InFieldName (snoc name c)) rest
          else markup_from (InBrackets (snoc name c)) rest
      end
  | AtConversion name =>
      match s with
      | EmptyString =>
          syntax_error "end of string while looking for conversion specifier"
      | String conv rest =>
          match rest with
          | EmptyString => syntax_error "unmatched '{' in format spec"
          | String c' rest' =>
              if Ascii.eqb c' close_brace
              then emit (Replacement {| field_name := name; conversion := Some conv;
                                        format_spec := ""; spec_needs_expanding := false |})
                        (markup_from (InLiteral "") rest')
              else if Ascii.eqb c' colon
              then markup_from (InFormatSpec name (Some conv) "" 1 false) rest'
              else syntax_error "expected ':' after conversion specifier"
          end
      end
  | InFormatSpec name conv spec count needs =>
      match s with
      | EmptyString => syntax_error "unmatched '{' in format spec"
      | String c rest =>
          if Ascii.eqb c open_brace
          then markup_from (InFormatSpec name conv (snoc spec c) (S count) true) rest
          else if Ascii.eqb c close_brace then
            match count with
            | 1 => emit (Replacement {| field_name := name; conversion := conv;
                                        format_spec := spec;
                                        spec_needs_expanding := needs |})
                        (markup_from (InLiteral "") rest)
            | _ => markup_from (InFormatSpec name conv (snoc spec c) (pred count) needs) rest
            end
          else markup_from (InFormatSpec name conv (snoc spec c) count needs) rest
      end
  end.

Definition markup (s : string) : list Markup * option PyExc :=
  markup_from (InLiteral "") s.

Definition fields_of (items : list Markup) : list Field :=
  omap (fun m => match m with Replacement f => Some f | Literal _ => None end) items.

(** The replacement fields of a format string, in order. *)
Definition replacement_fields (s : string) : list Field := fields_of (markup s).1.

(** ** Looking the argument up ([field_name_split], [get_field_object]) *)

(** The field name up to the first [.] or [[], and what follows it. *)
Fixpoint split_field_name (name : string) : string * string :=
  match name with
  | EmptyString => ("", "")
  | String c rest =>
      if Ascii.eqb c dot || Ascii.eqb c open_bracket then ("", name)
      else let '(first, path) := split_field_name rest in (String c first, path)
  end.

Definition digit_value (c : Ascii.ascii) : option N :=
  let n := Ascii.N_of_ascii c in
  if ((48 <=? n) && (n <=? 57))%N then Some (n - 48)%N else None.

(** [PY_SSIZE_T_MAX] of a 64-bit build. *)
Definition PY_SSIZE_T_MAX : N := 9223372036854775807.

(** [get_integer] past the emptiness test: [None] when some character is
    not a decimal digit. *)
Fixpoint get_integer_from (accumulator : N) (s : string) : option (Outcome N) :=
  match s with
  | EmptyString => Some (Return accumulator)
  | String c rest =>
      match digit_value c with
      | None => None
      | Some digitval =>
          if ((PY_SSIZE_T_MAX - digitval) / 10 <? accumulator)%N
          then Some (Raise (ValueError "Too many decimal digits in format string"))
          else get_integer_from (accumulator * 10 + digitval)%N rest
      end
  end.

(** Which argument a field names. *)
Inductive ArgName : Type :=
| Auto                    (** [{}]: the next positional argument *)
| Positional (idx : N)    (** [{0}] *)
| Keyword (key : string)  (** [{key}] *)
| BadIndex (e : PyExc).

#[global] Instance ArgName_eq_dec : EqDecision ArgName.
Proof. solve_decision. Defined.

Definition arg_name (name : string) : ArgName :=
  let first := (split_field_name name).1 in
  match first with
  | EmptyString => Auto
  | _ =>
      match get_integer_from 0 first with
      | None => Keyword first
      | Some (Return idx) => Positional idx
      | Some (Raise e) => BadIndex e
      end
  end.

(** The argument a field names. *)
Definition field_arg (f : Field) : ArgName := arg_name (field_name f).

(** A field [{key}]: a keyword argument, nothing looked up in it, no
    conversion, no format spec. *)
Definition plain_field (f : Field) : Prop :=
  (exists key, field_arg f = Keyword key)
  /\ (split_field_name (field_name f)).2 = ""
  /\ conversion f = None
  /\ format_spec f = ""
  /\ spec_needs_expanding f = false.

Definition decimal (n : N) : string :=
  DecimalString.NilZero.string_of_uint (N.to_uint n).

Definition out_of_range (idx : N) : PyExc :=
  IndexError ("Replacement index " +:+ decimal idx
              +:+ " out of range for positional args tuple").

Section Format.

Context {V : Type} `{!PyObject V}.

(** The object of a field when the call passes keyword arguments only: the
    tuple of positional arguments is empty, so the first numbered field
    already fails. *)
Definition get_field_object (kwargs : gmap string V) (name : string) : Outcome V :=
  match arg_name name with
  | BadIndex e => Raise e
  | Auto => Raise (out_of_range 0)
  | Positional idx => Raise (out_of_range idx)
  | Keyword key =>
      match kwargs !! key with
      | None => Raise (KeyError key)
      | Some obj =>
          match (split_field_name name).2 with
          | EmptyString => Return obj
          | path => py_getpath obj path
          end
      end
  end.

(** [output_markup] on one field: the object, the conversion, the expansion
    of the format spec, the formatting. *)
Definition render_field (expand : string -> Outcome string)
    (kwargs : gmap string V) (f : Field) : Outcome string :=
  obj ← get_field_object kwargs (field_name f);
  obj ← match conversion f with
        | None => Return obj
        | Some c => py_convert obj c
        end;
  spec ← (if spec_needs_expanding f then expand (format_spec f)
          else Return (format_spec f));
  py_format obj spec.

Fixpoint render_markup (expand : string -> Outcome string)
    (kwargs : gmap string V) (items : list Markup) : Outcome string :=
  match items with
  | [] => Return ""
  | Literal text :: rest =>
      r ← render_markup expand kwargs rest; Return (text +:+ r)
  | Replacement f :: rest =>
      s ← render_field expand kwargs f;
      r ← render_markup expand kwargs rest;
      Return (s +:+ r)
  end.

(** [build_string]: the markup is rendered from left to right, so a syntax
    error is met after the fields that precede it. *)
Fixpoint build_string (recursion_depth : nat) (input : string)
    (kwargs : gmap string V) : Outcome string :=
  match recursion_depth with
  | O => Raise (ValueError "Max string recursion exceeded")
  | S depth =>
      let '(items, err) := markup input in
      r ← render_markup (fun spec => build_string depth spec kwargs) kwargs items;
      match err with
      | Some e => Raise e
      | None => Return r
      end
  end.

(** [value.format] called with keyword arguments only. *)
Definition str_format (value : string) (kwargs : gmap string V) : Outcome string :=
  build_string 2 value kwargs.

(** [contextlib.suppress(KeyError)] lets every other exception through. *)
Definition is_KeyError (e : PyExc) : bool := bool_decide (exc_class e = "KeyError").

(** [formats] in the order of [formats.items()]. *)
Fixpoint partial_format (value : string) (formats : list (string * V))
  : Outcome string :=
  match formats with
  | [] => Return value
  | (template_key, template_value) :: rest =>
      match str_format value {[ template_key := template_value ]} with
      | Return value' => partial_format value' rest
      | Raise e =>
          if is_KeyError e then partial_format value rest else Raise e
      end
  end.

End Format.

(** Python [str] values as far as the plain field [{key}] and the
    conversion [!s] go; what else a [str] supports is left out. *)
Definition unsupported : PyExc := mkExc "NotImplementedError" "outside the model" true.

#[global] Instance str_PyObject : PyObject string := {
  py_getpath _ _ := Raise unsupported;
  py_convert v c :=
    if Ascii.eqb c (Ascii.ascii_of_nat 115) then Return v else Raise unsupported;
  py_format v spec :=
    match spec with
    | EmptyString => Return v
    | _ => Raise unsupported
    end;
}.

End Utils.
Export Utils.

(* ===================================================================== *)
(** * Concrete environments, datasets and values for the examples *)
(* ===================================================================== *)

Module Fixtures.

(** No pydantic model occurs in the examples. *)
#[global] Instance no_models : Pydantic Empty_set := {
  model_class_name m := match m with end;
  model_dump_json m _ _ := match m with end;
}.

(** [json.dumps] on [None], booleans and integers; the other values are left out. *)
Definition json_dumps_atoms {St} (v : PyVal St Empty_set) : Outcome string :=
  match v with
  | VNone => Return "null"
  | VBool true => Return "true"
  | VBool false => Return "false"
  | VInt z => Return (NilZero.string_of_int (Z.to_int z))
  | _ => Raise (mkExc "NotImplementedError" "outside the model" true)
  end.

(** [def f(...)] at the top level of the module [__main__]: [co_flags] is
    [CO_OPTIMIZED | CO_NEWLOCALS]. *)
Definition plain_function {St} (name : string) (params : list string)
    (body : gmap string (PyVal St Empty_set) -> Coro St (PyVal St Empty_set))
  : PyCallable St Empty_set :=
  {| fn_kind := FunctionOrMethod 3;
     fn_signature := Return params;
     fn_has_requires_state := false;
     fn_repr := "<function " +:+ name +:+ " at 0x7f3a5c0d4e00>";
     fn_str := "__main__." +:+ name +:+ "()";
     fn_body := body |}.

(** [async def f(...)]: [CO_COROUTINE] is set as well. *)
Definition async_function {St} (name : string) (params : list string)
    (body : gmap string (PyVal St Empty_set) -> Coro St (PyVal St Empty_set))
  : PyCallable St Empty_set :=
  {| fn_kind := FunctionOrMethod 131;
     fn_signature := Return params;
     fn_has_requires_state := false;
     fn_repr := "<function " +:+ name +:+ " at 0x7f3a5c0d4e00>";
     fn_str := "__main__." +:+ name +:+ "()";
     fn_body := body |}.

Definition tool_of {St} (name : string) (fn : PyCallable St Empty_set)
  : Tool St Empty_set :=
  {| tool_info := {| info_name := name; info_description := "" |}; _tool_fn := fn |}.

Definition call_of {St} (id name : string) (args : gmap string (PyVal St Empty_set))
  : ToolCall St Empty_set :=
  {| call_id := id;
     call_function := {| function_name := name; function_arguments := args |} |}.

Definition request {St} (calls : list (ToolCall St Empty_set))
  : ToolRequestMessage St Empty_set :=
  {| req_role := "assistant"; req_content := None; req_function_call := None;
     tool_calls := calls |}.

(** tests/test_tools.py, [get_todo_list_no_args]. *)
Definition get_todo_list_no_args : Tool unit Empty_set :=
  tool_of "get_todo_list_no_args"
    (plain_function "get_todo_list_no_args" []
       (fun _ => finished (Return (VStr "Go for a walk")))).

(** The same function written with [async def]. *)
Definition get_todo_list_async : Tool unit Empty_set :=
  tool_of "get_todo_list_async"
    (async_function "get_todo_list_async" []
       (fun _ => finished (Return (VStr "Go for a walk")))).

(** A tool whose function raises, as [cast_float] of [DummyEnv] does on ["abc"]. *)
Definition cast_float_error : PyExc :=
  ValueError "could not convert string to float: 'abc'".

Definition cast_float : Tool unit Empty_set :=
  tool_of "cast_float"
    (async_function "cast_float" ["x"] (fun _ => finished (Raise cast_float_error))).

(** An exception whose instances are falsy, as those of
    [class Empty(Exception)] with [__len__] returning 0 are, and a tool
    whose function raises it. *)
Definition empty_error : PyExc := mkExc "Empty" "" false.

Definition drain : Tool unit Empty_set :=
  tool_of "drain" (async_function "drain" [] (fun _ => finished (Raise empty_error))).

Definition drain_env : Environment unit Empty_set := {| tools := [drain] |}.

Definition todo_env : Environment unit Empty_set :=
  {| tools := [get_todo_list_no_args; get_todo_list_async; cast_float] |}.

Definition nope_call : ToolCall unit Empty_set := call_of "call_1" "nope" ∅.
Definition todo_call : ToolCall unit Empty_set :=
  call_of "call_2" "get_todo_list_no_args" ∅.
Definition todo_async_call : ToolCall unit Empty_set :=
  call_of "call_3" "get_todo_list_async" ∅.
Definition cast_call : ToolCall unit Empty_set :=
  call_of "call_4" "cast_float" {[ "x" := VStr "abc" ]}.
Definition drain_call : ToolCall unit Empty_set := call_of "call_6" "drain" ∅.

(** Two tools over a shared counter: [read_later] suspends once and then
    returns the counter, [bump] increments it. *)
Definition read_later : Tool nat Empty_set :=
  tool_of "read_later"
    (async_function "read_later" [] (fun _ =>
       Seg (fun st => Yield st (Seg (fun st' => Done st' (Return (VInt (Z.of_nat st')))))))).

Definition bump : Tool nat Empty_set :=
  tool_of "bump"
    (async_function "bump" [] (fun _ => Seg (fun st => Done (S st) (Return VNone)))).

Definition counter_env : Environment nat Empty_set := {| tools := [read_later; bump] |}.

Definition counter_request : ToolRequestMessage nat Empty_set :=
  request [call_of "r" "read_later" ∅; call_of "b" "bump" ∅].

(** A dataset of five environments, each known by its index, and a
    [random.shuffle] that happens to reverse. *)
Definition five_envs : TaskDataset nat :=
  {| dataset_len := Some 5; get_new_env_by_idx := fun idx => idx; get_new_env := 0 |}.

Definition reversing : Shuffle :=
  {| shuffled := @rev nat; shuffled_perm := @Permutation_rev nat |}.

End Fixtures.

(* ===================================================================== *)
(** * Further vocabulary and examples *)
(* ===================================================================== *)

Module EnvMore.

(** The message with other tool calls, as [filter_invalid_tool_calls] builds it. *)
Definition with_calls {St Model} (message : ToolRequestMessage St Model)
    (calls : list (ToolCall St Model)) : ToolRequestMessage St Model :=
  {| req_role := req_role message;
     req_content := req_content message;
     req_function_call := req_function_call message;
     tool_calls := calls |}.

(** [json.dumps] on [None], booleans, integers and [set] objects, which it
    rejects; the other values are left out. *)
Definition json_dumps_no_sets {St} (v : PyVal St Empty_set) : Outcome string :=
  match v with
  | VObject "set" => Raise (TypeError "Object of type set is not JSON serializable")
  | _ => Fixtures.json_dumps_atoms v
  end.

(** [async def unique(): return set()] *)
Definition unique : Tool unit Empty_set :=
  Fixtures.tool_of "unique"
    (Fixtures.async_function "unique" [] (fun _ => finished (Return (VObject "set")))).

Definition unique_env : Environment unit Empty_set := {| tools := [unique] |}.

Definition unique_call : ToolCall unit Empty_set := Fixtures.call_of "call_5" "unique" ∅.

(** A finite dataset without environments. *)
Definition no_envs : TaskDataset nat :=
  {| dataset_len := Some 0; get_new_env_by_idx := fun idx => idx; get_new_env := 0 |}.

End EnvMore.
Export EnvMore.

Module UtilsMore.

(** No character of [s] is a brace. *)
Fixpoint brace_free (s : string) : bool :=
  match s with
  | EmptyString => true
  | String c rest =>
      negb (Ascii.eqb c open_brace) && negb (Ascii.eqb c close_brace) && brace_free rest
  end.

(** What a markup renders to when each replacement field renders to [s]:
    the literal texts, escapes undone, with [s] in the place of every field. *)
Fixpoint fill (s : string) (items : list Markup) : string :=
  match items with
  | [] => ""
  | Literal text :: rest => text +:+ fill s rest
  | Replacement _ :: rest => s +:+ fill s rest
  end.

End UtilsMore.
Export UtilsMore.

(* ===================================================================== *)
(** * aviary/gsm8k/env.py: GSM8kDataset *)
(* ===================================================================== *)

Module GSM8k.

(** ** [str.split] and [str.replace] as the constructor uses them *)

(** [s.split(sep)] for a non-empty [sep], read from left to right: [cur] is
    the piece being read and [skip] the number of characters of a separator
    just found that are still to be passed over. *)
Fixpoint split_from (sep : string) (skip : nat) (cur : string) (s : string)
  : list string :=
  match s with
  | EmptyString => [cur]
  | String c rest =>
      match skip with
      | S k => split_from sep k cur rest
      | O =>
          if String.prefix sep s
          then cur :: split_from sep (String.length sep - 1) "" rest
          else split_from sep 0 (snoc cur c) rest
      end
  end.

Definition str_split (s sep : string) : list string := split_from sep 0 "" s.

(** [s.replace(old, "")] for a one-character [old]. *)
Fixpoint str_remove (s : string) (old : Ascii.ascii) : string :=
  match s with
  | EmptyString => ""
  | String c rest =>
      if Ascii.eqb c old then str_remove rest old else String c (str_remove rest old)
  end.

Definition comma : Ascii.ascii := Ascii.ascii_of_nat 44.

Definition RuntimeError (msg : string) : PyExc := mkExc "RuntimeError" msg true.

(** ** The splits *)

Inductive Split : Type := train_full | train | val | test.

#[global] Instance Split_eq_dec : EqDecision Split.
Proof. solve_decision. Defined.

Definition Split_value (split : Split) : string :=
  match split with
  | train_full => "train_full"
  | train => "train"
  | val => "val"
  | test => "test"
  end.

Definition GSM8K_PUBLIC_SOURCE : string := "openai/gsm8k".

(** A row of the Hugging Face dataset. *)
Record Example : Type := { question : string; answer : string }.

Section GSM8kDataset.

(** Python floats with [float(s)], [CalculatorEnvConfig] with its default
    instance and its validation of a [dict], [repr] of a [str], and
    [datasets.load_dataset(hf_source, split=hf_split, **kw)] are given from
    outside. *)
Context {Float Config ConfigDict : Type}.
Context (py_float : string -> Outcome Float).
Context (CalculatorEnvConfig_default : Config).
Context (CalculatorEnvConfig_validate : ConfigDict -> Outcome Config).
Context (repr : string -> string).
Context (load_dataset : string -> string -> gmap string string -> Outcome (list Example)).

(** The [config] argument of the constructor. *)
Inductive ConfigArg : Type :=
| ConfigObject (config : Config)
| ConfigAsDict (config : ConfigDict)
| ConfigNone.

(** [Split(value)]: the member with that value. *)
Definition Split_of (value : string) : Outcome Split :=
  if decide (value = "train_full") then Return train_full
  else if decide (value = "train") then Return train
  else if decide (value = "val") then Return val
  else if decide (value = "test") then Return test
  else Raise (ValueError (repr value +:+ " is not a valid GSM8kDataset.Split")).

(** A data frame: its rows with their index labels. *)
Definition reset_index {A} (rows : list A) : list (nat * A) :=
  imap (fun i row => (i, row)) rows.

Definition _get_df_from_hf (hf_source : string) (split : Split)
  : Outcome (list (nat * Example)) :=
  let hf_split := if decide (split = test) then "test" else "train" in
  let kw : gmap string string :=
    if decide (hf_source = GSM8K_PUBLIC_SOURCE) then {[ "name" := "main" ]} else ∅ in
  rows ← load_dataset hf_source hf_split kw;
  let src_df := reset_index rows in
  Return (if decide (split = train) then filter (fun row => row.1 mod 5 <> 0) src_df
          else if decide (split = val) then filter (fun row => row.1 mod 5 = 0) src_df
          else src_df).

(** A row of [src_df] with the two columns the constructor adds. *)
Record Row : Type := {
  index : nat;
  row_question : string;
  row_answer : string;
  row_problem_id : string;
  answer_num : Float;
}.

(** [float(a.split("#### ")[1].replace(",", ""))] *)
Definition extract_answer (a : string) : Outcome Float :=
  match str_split a "#### " !! 1 with
  | None => Raise (IndexError "list index out of range")
  | Some text => py_float (str_remove text comma)
  end.

Record GSM8kDataset : Type := { config : Config; src_df : list Row }.

Definition __init__ (split : string) (config : ConfigArg) (hf_source : string)
  : Outcome GSM8kDataset :=
  config ← match config with
           | ConfigAsDict d => CalculatorEnvConfig_validate d
           | ConfigNone => Return CalculatorEnvConfig_default
           | ConfigObject c => Return c
           end;
  split ← Split_of split;
  src_df ← _get_df_from_hf hf_source split;
  let problem_id :=
    (fun row => Split_value split +:+ "_" +:+ decimal (N.of_nat row.1)) <$> src_df in
  match mapM (fun row => extract_answer (answer row.2)) src_df with
  | Raise _ =>
      Raise (RuntimeError "Failed to extract numerical answer from 'answer' column")
  | Return nums =>
      Return {| config := config;
                src_df := zip_with (fun '(i, ex, id) num =>
                                      {| index := i; row_question := question ex;
                                         row_answer := answer ex; row_problem_id := id;
                                         answer_num := num |})
                                   (zip src_df problem_id) nums |}
  end.

(** What [CalculatorEnv.__init__] is given; the tools of the environment
    are made from its own methods. *)
Record CalculatorEnv : Type := {
  problem_id : string;
  problem : string;
  env_answer : Float;
  env_config : Config;
}.

(** [src_df.iloc[idx]]: a negative position counts from the end. *)
Definition iloc {A} (df : list A) (idx : Z) : Outcome A :=
  let n := Z.of_nat (length df) in
  if decide (- n <= idx < n)%Z
  then match df !! Z.to_nat (if decide (idx < 0)%Z then n + idx else idx)%Z with
       | Some row => Return row
       | None => Raise (IndexError "single positional indexer is out-of-bounds")
       end
  else Raise (IndexError "single positional indexer is out-of-bounds").

Definition get_new_env_by_idx (self : GSM8kDataset) (idx : Z) : Outcome CalculatorEnv :=
  row ← iloc (src_df self) idx;
  Return {| problem_id := row_problem_id row; problem := row_question row;
            env_answer := answer_num row; env_config := config self |}.

Definition __len__ (self : GSM8kDataset) : nat := length (src_df self).

End GSM8kDataset.

End GSM8k.

Module GSM8kMore.

Definition hash : Ascii.ascii := Ascii.ascii_of_nat 35.

(** No character of [s] is [#]. *)
Fixpoint hash_free (s : string) : bool :=
  match s with
  | EmptyString => true
  | String c rest => negb (Ascii.eqb c hash) && hash_free rest
  end.

End GSM8kMore.

Module GSM8kFixtures.
Import GSM8k.

(** A stand-in for [float] on strings of decimal digits. *)
Definition float_of_digits (s : string) : Outcome N :=
  match s with
  | EmptyString => Raise (ValueError "could not convert string to float: ''")
  | _ =>
      match get_integer_from 0 s with
      | Some (Return n) => Return n
      | _ => Raise (ValueError ("could not convert string to float: '" +:+ s +:+ "'"))
      end
  end.

Definition quoted (s : string) : string := "'" +:+ s +:+ "'".

Definition example_of (q num : string) : Example :=
  {| question := q; answer := "Worked out." +:+ newline +:+ "#### " +:+ num |}.

Definition seven_examples : list Example :=
  [example_of "q0" "10"; example_of "q1" "11"; example_of "q2" "1,200";
   example_of "q3" "13"; example_of "q4" "14"; example_of "q5" "15";
   example_of "q6" "16"].

(** As [seven_examples], with an answer in the second row that holds no
    number. *)
Definition one_malformed : list Example :=
  [example_of "q0" "10"; {| question := "q1"; answer := "eleven" |};
   example_of "q2" "1,200"; example_of "q3" "13"; example_of "q4" "14";
   example_of "q5" "15"; example_of "q6" "16"].

Definition load_seven (hf_source hf_split : string) (kw : gmap string string)
  : Outcome (list Example) :=
  if decide (hf_split = "train") then Return seven_examples
  else Return [example_of "t0" "1"; example_of "t1" "2"].

Definition load_malformed (hf_source hf_split : string) (kw : gmap string string)
  : Outcome (list Example) :=
  Return one_malformed.

Definition make (load : string -> string -> gmap string string -> Outcome (list Example))
    (split : string) : Outcome (GSM8kDataset (Float := N) (Config := unit)) :=
  __init__ float_of_digits tt (fun d : unit => Return d) quoted load
    split ConfigNone GSM8K_PUBLIC_SOURCE.

End GSM8kFixtures.

(* ===================================================================== *)
(** * Facts about coroutines, await and gather *)
(* ===================================================================== *)

Section AsyncioFacts.
Context {St : Type}.
Implicit Types st : St.

Lemma Coro_seg_ind {A} (P : Coro St A -> Prop) :
  (forall c, (forall st st' c', resume c st = Yield st' c' -> P c') -> P c) ->
  forall c, P c.
Proof.
  intros H. fix IH 1. intros c. apply H. destruct c as [k]. simpl.
  intros st st' c' E. destruct (k st) as [|st2 c2]; [discriminate|].
  injection E as _ <-. apply IH.
Qed.

Lemma runs_deterministic {A} (c : Coro St A) ins o1 o2 :
  runs c ins o1 -> runs c ins o2 -> o1 = o2.
Proof.
  intros H. revert o2. induction H as [c st st' o E|c st st' c' ins o E _ IH]; intros o2 H2.
  - inversion H2 as [? ? st2 ? E2|? ? st2 c2 ? ? E2 H3]; subst.
    + congruence.
    + congruence.
  - inversion H2 as [? ? st2 ? E2|? ? st2 c2 ? ? E2 H3]; subst.
    + congruence.
    + assert (c2 = c') by congruence. subst. auto.
Qed.


Lemma produces_done {A} (c : Coro St A) st st' o :
  resume c st = Done st' o -> produces c o.
Proof. intros E. exists [st]. by eapply runs_done. Qed.

Lemma produces_yield {A} (c c' : Coro St A) st st' o :
  resume c st = Yield st' c' -> produces c' o -> produces c o.
Proof. intros E [ins H]. exists (st :: ins). by eapply runs_yield. Qed.

Lemma run_all_unfold {A} (c : Coro St A) st :
  run_all c st =
  match resume c st with
  | Done st' o => (st', o)
  | Yield st' c' => run_all c' st'
  end.
Proof. by destruct c. Qed.

Lemma run_all_produces {A} (c : Coro St A) :
  forall st st' o, run_all c st = (st', o) -> produces c o.
Proof.
  induction c as [c IH] using Coro_seg_ind. intros st st' o.
  rewrite run_all_unfold. destruct (resume c st) as [st2 o2|st2 c2] eqn:E.
  - intros [= <- <-]. by eapply produces_done.
  - intros H. eapply produces_yield; [done|]. by eapply IH.
Qed.

Lemma coro_catch_unfold {A B} (c : Coro St A) (h : Outcome A -> Coro St B) st :
  resume (coro_catch c h) st =
  match resume c st with
  | Done st' o => resume (h o) st'
  | Yield st' c' => Yield st' (coro_catch c' h)
  end.
Proof. by destruct c. Qed.

(** A handler that ends the coroutine at once maps the outcome. *)
Lemma runs_catch_finished {A B} (g : Outcome A -> Outcome B) h (c : Coro St A) ins o :
  (forall r, h r = finished (g r)) ->
  runs (coro_catch c h) ins o <-> exists r, runs c ins r /\ o = g r.
Proof.
  intros Hh. split.
  - remember (coro_catch c h) as d eqn:Ed.
    intros H. revert c Ed.
    induction H as [d st st' o E|d st st' d' ins o E _ IH]; intros c ->.
    + rewrite coro_catch_unfold in E.
      destruct (resume c st) as [st2 r|st2 c2] eqn:Ec; [|discriminate].
      rewrite Hh in E. simpl in E. injection E as <- <-. exists r. split; [|done].
      by eapply runs_done.
    + rewrite coro_catch_unfold in E.
      destruct (resume c st) as [st2 r|st2 c2] eqn:Ec.
      { rewrite Hh in E. discriminate. }
      injection E as <- <-. destruct (IH c2 eq_refl) as (r & Hr & ->).
      exists r. split; [|done]. by eapply runs_yield.
  - intros (r & Hr & ->).
    induction Hr as [c st st' r E|c st st' c' ins r E _ IH].
    + eapply runs_done. rewrite coro_catch_unfold, E, Hh. done.
    + eapply runs_yield; [|exact IH]. rewrite coro_catch_unfold, E. done.
Qed.

Lemma runs_finished {A} (o o' : Outcome A) ins :
  runs (St := St) (finished o) ins o' -> o' = o.
Proof. inversion 1; simplify_eq/=; done. Qed.

(** ** Soundness of the two ways of awaiting a list of coroutines *)

Lemma answers_cons {A} (c : Coro St A) cs a r :
  produces c (Return a) -> answers cs r -> answers (c :: cs) (cons a <$> r).
Proof.
  destruct r as [xs|e]; simpl; intros Ha Hr.
  - by constructor.
  - by apply Exists_cons_tl.
Qed.

Lemma await_each_answers {A} (cs : list (Coro St A)) st :
  answers cs (await_each cs st).2.
Proof.
  revert st. induction cs as [|c cs IH]; intros st; simpl.
  - constructor.
  - destruct (run_all c st) as [st' [a|e]] eqn:E.
    + specialize (IH st'). destruct (await_each cs st') as [st'' r]. simpl in *.
      apply answers_cons; [|done]. by eapply run_all_produces.
    + simpl. apply Exists_cons_hd. by eapply run_all_produces.
Qed.

Lemma gather_drain_answers {A} (cs : list (Coro St A)) slots st :
  Forall2 slot_of cs slots -> answers cs (gather_drain slots st).2.
Proof.
  intros H. revert st. induction H as [|c0 s cs slots Hs _ IH]; intros st; simpl.
  - constructor.
  - destruct s as [a|c].
    + specialize (IH st). destruct (gather_drain slots st) as [st' r]. simpl in *.
      by apply answers_cons.
    + destruct (run_all c st) as [st' [a|e]] eqn:E.
      * specialize (IH st'). destruct (gather_drain slots st') as [st'' r]. simpl in *.
        apply answers_cons; [|done]. apply Hs. by eapply run_all_produces.
      * simpl. apply Exists_cons_hd. apply Hs. by eapply run_all_produces.
Qed.

Lemma gather_sched_answers {A} sched (cs : list (Coro St A)) slots st :
  Forall2 slot_of cs slots -> answers cs (gather_sched sched slots st).2.
Proof.
  revert slots st. induction sched as [|i sched IH]; intros slots st H; simpl.
  - by apply gather_drain_answers.
  - destruct (slots !! i) as [[a|c]|] eqn:Ei; [by apply IH| |by apply IH].
    destruct (Forall2_lookup_r _ _ _ _ _ H Ei) as (c0 & Ec0 & Hc).
    destruct (resume c st) as [st' [a|e]|st' c'] eqn:E.
    + apply IH. rewrite <- (list_insert_id cs i c0) by done.
      apply Forall2_insert; [done|]. simpl. apply Hc. by eapply produces_done.
    + simpl. apply list.Exists_exists. exists c0. split.
      * by eapply list_elem_of_lookup_2.
      * apply Hc. by eapply produces_done.
    + apply IH. rewrite <- (list_insert_id cs i c0) by done.
      apply Forall2_insert; [done|]. simpl. intros o Ho. apply Hc.
      by eapply produces_yield.
Qed.

Lemma gather_answers {A} sched (cs : list (Coro St A)) st :
  answers cs (gather sched cs st).2.
Proof.
  apply gather_sched_answers. apply Forall2_fmap_r, Forall_Forall2_diag, Forall_forall.
  by intros c _ o.
Qed.

End AsyncioFacts.

(* ===================================================================== *)
(** * Facts about the execution of one tool call *)
(* ===================================================================== *)

Section EnvFacts.
Context {St Model : Type} `{!Pydantic Model}.
Context (json_dumps : PyVal St Model -> Outcome string).

Abbreviation PyVal := (PyVal St Model).
Abbreviation Tool := (Tool St Model).
Abbreviation ToolCall := (ToolCall St Model).
Abbreviation Environment := (Environment St Model).
Abbreviation ToolRequestMessage := (ToolRequestMessage St Model).

Implicit Types (self : Environment) (tool : Tool) (tool_call : ToolCall)
  (message : ToolRequestMessage) (st : St) (kw filtered : list (string * PyVal)).

Lemma find_tool_Some self name tool :
  find_tool self name = Some tool -> tool ∈ tools self /\ info_name (tool_info tool) = name.
Proof.
  unfold find_tool. intros H. apply find_some in H as [Hin Hn].
  split; [by apply list_elem_of_In|]. by apply bool_decide_eq_true in Hn.
Qed.

Lemma find_tool_is_Some self name :
  is_Some (find_tool self name) <-> name ∈ tool_names self.
Proof.
  unfold tool_names. rewrite list_elem_of_fmap. split.
  - intros [tool H]. apply find_tool_Some in H as [? ?]. eauto.
  - intros (tool & -> & Hin). unfold find_tool.
    destruct (find _ _) as [t|] eqn:E; [eauto|].
    eapply find_none in E; [|by apply list_elem_of_In].
    by apply bool_decide_eq_false in E.
Qed.

Lemma find_tool_None self name :
  find_tool self name = None <-> name ∉ tool_names self.
Proof.
  rewrite <- find_tool_is_Some. rewrite <- eq_None_not_Some. done.
Qed.

Lemma exec_tool_call_unknown self h kw tool_call :
  called_name tool_call ∉ tool_names self ->
  _exec_tool_call json_dumps self h kw tool_call =
  finished (Raise (ValueError (called_name tool_call +:+ " not a valid function."))).
Proof.
  intros H. apply find_tool_None in H. unfold _exec_tool_call, called_name in *.
  by rewrite H.
Qed.

Lemma exec_tool_call_no_signature self h kw tool_call tool e :
  find_tool self (called_name tool_call) = Some tool ->
  filter_kwargs (_tool_fn tool) kw = Raise e ->
  _exec_tool_call json_dumps self h kw tool_call = finished (Raise e).
Proof.
  intros Hf Hk. unfold _exec_tool_call. unfold called_name in Hf. by rewrite Hf, Hk.
Qed.

Lemma runs_exec_tool_call self h kw tool_call tool filtered ins o :
  find_tool self (called_name tool_call) = Some tool ->
  filter_kwargs (_tool_fn tool) kw = Return filtered ->
  runs (_exec_tool_call json_dumps self h kw tool_call) ins o <->
  exists r, runs (invoke_tool tool tool_call filtered) ins r
            /\ o = respond json_dumps tool h tool_call r.
Proof.
  intros Hf Hk. unfold _exec_tool_call. unfold called_name in Hf. rewrite Hf, Hk.
  apply runs_catch_finished. intros [content|exc]; simpl; [done|].
  destruct h; [|done]. by destruct (exc_bool exc).
Qed.


Lemma run_all_catch_finished {A B} (g : Outcome A -> Outcome B) h (c : Coro St A) :
  (forall r, h r = finished (g r)) ->
  forall st, run_all (coro_catch c h) st = ((run_all c st).1, g (run_all c st).2).
Proof.
  intros Hh. induction c as [c IH] using Coro_seg_ind. intros st.
  rewrite (run_all_unfold (coro_catch c h)), coro_catch_unfold, (run_all_unfold c).
  destruct (resume c st) as [st2 r|st2 c2] eqn:E.
  - by rewrite Hh.
  - by eapply IH.
Qed.

Lemma run_all_exec_tool_call self h kw tool_call tool filtered st :
  find_tool self (called_name tool_call) = Some tool ->
  filter_kwargs (_tool_fn tool) kw = Return filtered ->
  run_all (_exec_tool_call json_dumps self h kw tool_call) st =
  let r := run_all (invoke_tool tool tool_call filtered) st in
  (r.1, respond json_dumps tool h tool_call r.2).
Proof.
  intros Hf Hk. unfold _exec_tool_call. unfold called_name in Hf. rewrite Hf, Hk.
  apply run_all_catch_finished. intros [content|exc]; simpl; [done|].
  destruct h; [|done]. by destruct (exc_bool exc).
Qed.

Lemma gather_sched_single {A} sched (s : Slot St A) st :
  gather_sched sched [s] st = gather_drain [s] st.
Proof.
  revert s st. induction sched as [|i sched IH]; intros s st; [done|].
  simpl. destruct i as [|i]; simpl; [|by rewrite IH].
  destruct s as [a|c]; [by rewrite IH|].
  rewrite run_all_unfold.
  destruct (resume c st) as [st' [a|e]|st' c'] eqn:E; rewrite ?IH; done.
Qed.

Lemma exec_tool_calls_single self message ordered h kw sched st tool_call :
  tool_calls message = [tool_call] ->
  exec_tool_calls json_dumps self message ordered h kw sched st =
  let r := run_all (_exec_tool_call json_dumps self h kw tool_call) st in
  (r.1, (fun x => [x]) <$> r.2).
Proof.
  intros Hm. unfold exec_tool_calls. rewrite Hm. simpl.
  assert (forall c : Coro St ToolResponseMessage,
    gather_drain [inr c] st = ((run_all c st).1, (fun x => [x]) <$> (run_all c st).2)) as Hd.
  { intros c. simpl. by destruct (run_all c st) as [st' [a|e]]. }
  destruct ordered; simpl.
  - specialize (Hd (_exec_tool_call json_dumps self h kw tool_call)). simpl in Hd.
    by destruct (run_all _ st) as [st' [a|e]].
  - etrans; [|apply Hd].
    apply (gather_sched_single sched (inr (_exec_tool_call json_dumps self h kw tool_call)) st).
Qed.

Lemma exec_tool_calls_answers self message ordered h kw sched st :
  answers (_exec_tool_call json_dumps self h kw <$> tool_calls message)
          (exec_tool_calls json_dumps self message ordered h kw sched st).2.
Proof.
  unfold exec_tool_calls. destruct ordered; simpl.
  - apply await_each_answers.
  - apply gather_answers.
Qed.

End EnvFacts.

(* ===================================================================== *)
(** * Environment.exec_tool_calls and filter_invalid_tool_calls *)
(* ===================================================================== *)

Section EnvClaims.
Context {St Model : Type} `{!Pydantic Model}.
Context (json_dumps : PyVal St Model -> Outcome string).

Abbreviation PyVal' := (PyVal St Model).
Implicit Types (self : Environment St Model) (tool : Tool St Model)
  (tool_call : ToolCall St Model) (message : ToolRequestMessage St Model)
  (st : St) (kw filtered : list (string * PyVal')).

(** C1 (as amended).  Whatever the message, the [ordered] flag and the
    interleaving: when [exec_tool_calls] returns, the list has the length of
    [message.tool_calls] and its i-th element is the response that executing
    the i-th tool call ended with; when it raises, the exception is one that
    executing some tool call of the message ended with. *)
Theorem exec_tool_calls_order self message ordered handle_tool_exc kw sched st :
  match (exec_tool_calls json_dumps self message ordered handle_tool_exc kw sched st).2 with
  | Return rs =>
      length rs = length (tool_calls message)
      /\ forall i tool_call, tool_calls message !! i = Some tool_call ->
           exists r, rs !! i = Some r
             /\ exists ins, runs (_exec_tool_call json_dumps self handle_tool_exc kw tool_call)
                                 ins (Return r)
  | Raise e =>
      exists tool_call, tool_call ∈ tool_calls message
        /\ exists ins, runs (_exec_tool_call json_dumps self handle_tool_exc kw tool_call)
                            ins (Raise e)
  end.
Proof.
  pose proof (exec_tool_calls_answers json_dumps self message ordered
                handle_tool_exc kw sched st) as H.
  destruct (exec_tool_calls _ _ _ _ _ _ _ _).2 as [rs|e]; simpl in H.
  - apply Forall2_fmap_l in H. split.
    + symmetry. by eapply Forall2_length.
    + intros i tool_call Hi.
      destruct (Forall2_lookup_l _ _ _ _ _ H Hi) as (r & Hr & Hp). eauto.
  - apply list.Exists_exists in H as (c & Hc & Hp).
    apply list_elem_of_fmap in Hc as (tool_call & -> & Hin). eauto.
Qed.

(** C2.  A tool call naming no tool of the environment is rejected with
    [ValueError("<name> not a valid function.")], whether or not
    [handle_tool_exc] is set: that is how executing the call ends, no message
    holding the call gets a list back, and a message of that call alone gets
    exactly this exception. *)
Theorem unknown_tool_rejected self handle_tool_exc kw tool_call :
  called_name tool_call ∉ tool_names self ->
  let err := ValueError (called_name tool_call +:+ " not a valid function.") in
  _exec_tool_call json_dumps self handle_tool_exc kw tool_call = finished (Raise err)
  /\ (forall message ordered sched st,
        tool_call ∈ tool_calls message ->
        exists e, (exec_tool_calls json_dumps self message ordered handle_tool_exc
                     kw sched st).2 = Raise e)
  /\ (forall message ordered sched st,
        tool_calls message = [tool_call] ->
        exec_tool_calls json_dumps self message ordered handle_tool_exc kw sched st
        = (st, Raise err)).
Proof.
  intros Hn err. pose proof (exec_tool_call_unknown json_dumps self handle_tool_exc
                               kw tool_call Hn) as Hc.
  split; [exact Hc|]. split.
  - intros message ordered sched st Hin.
    pose proof (exec_tool_calls_order self message ordered handle_tool_exc kw sched st) as H.
    destruct (exec_tool_calls _ _ _ _ _ _ _ _).2 as [rs|e]; [|eauto].
    destruct H as [_ H]. apply list_elem_of_lookup in Hin as [i Hi].
    destruct (H i tool_call Hi) as (r & _ & ins & Hr).
    rewrite Hc in Hr. apply runs_finished in Hr. discriminate.
  - intros message ordered sched st Hm.
    rewrite (exec_tool_calls_single json_dumps _ _ _ _ _ _ _ _ Hm). by rewrite Hc.
Qed.

(** C3 (the code departs from it).  Let the call name the tool [tool], let
    the filtering of [state] give [filtered], and write [attempt] for the
    awaited tool function.  Under any interleaving, when [attempt] raises
    [exc]: executing the call without [handle_tool_exc] raises [exc];
    executing it with [handle_tool_exc] returns the response whose content is
    "Failed to execute tool call for tool <name>:\n<exc>" when [exc] is
    truthy, as exception instances are unless their class says otherwise.
    But [if tool_exc:] tests the exception for truth and not for being
    [None]: with [handle_tool_exc] an exception whose instance is falsy is
    not turned into a response, the call raises [UnboundLocalError] for
    [content].  For a message of that call alone [exec_tool_calls] ends the
    same way.  In any message, when the tool function can only raise [exc]
    and [exec_tool_calls] with [handle_tool_exc] returns a list, [exc] is
    truthy and the response at the position of the call is that one; without
    [handle_tool_exc], [exec_tool_calls] raises. *)
Theorem tool_exception_handling self kw tool_call tool filtered :
  find_tool self (called_name tool_call) = Some tool ->
  filter_kwargs (_tool_fn tool) kw = Return filtered ->
  let attempt := invoke_tool tool tool_call filtered in
  let failure exc :=
    from_call tool_call
      ("Failed to execute tool call for tool " +:+ info_name (tool_info tool)
       +:+ ":" +:+ newline +:+ exc_str exc) in
  let handled exc :=
    if exc_bool exc then Return (failure exc)
    else Raise (UnboundLocalError "content") in
  (forall ins exc, runs attempt ins (Raise exc) ->
     runs (_exec_tool_call json_dumps self true kw tool_call) ins (handled exc)
     /\ runs (_exec_tool_call json_dumps self false kw tool_call) ins (Raise exc))
  /\ (forall message ordered sched st st' exc,
        tool_calls message = [tool_call] ->
        run_all attempt st = (st', Raise exc) ->
        exec_tool_calls json_dumps self message ordered true kw sched st
          = (st', (fun r => [r]) <$> handled exc)
        /\ exec_tool_calls json_dumps self message ordered false kw sched st
          = (st', Raise exc))
  /\ (forall message ordered sched st i exc,
        tool_calls message !! i = Some tool_call ->
        (forall ins o, runs attempt ins o -> o = Raise exc) ->
        (forall rs,
           (exec_tool_calls json_dumps self message ordered true kw sched st).2 = Return rs ->
           exc_bool exc = true /\ rs !! i = Some (failure exc))
        /\ exists e,
           (exec_tool_calls json_dumps self message ordered false kw sched st).2 = Raise e).
Proof.
  intros Hf Hk attempt failure handled. split; [|split].
  - intros ins exc Hr. split.
    + apply (runs_exec_tool_call json_dumps _ _ _ _ _ _ _ _ Hf Hk). by exists (Raise exc).
    + apply (runs_exec_tool_call json_dumps _ _ _ _ _ _ _ _ Hf Hk). by exists (Raise exc).
  - intros message ordered sched st st' exc Hm Hr.
    rewrite !(exec_tool_calls_single json_dumps _ _ _ _ _ _ _ _ Hm).
    rewrite !(run_all_exec_tool_call json_dumps _ _ _ _ _ _ _ Hf Hk).
    fold attempt. by rewrite Hr.
  - intros message ordered sched st i exc Hi Hraise. split.
    + intros rs Hrs.
      pose proof (exec_tool_calls_order self message ordered true kw sched st) as H.
      rewrite Hrs in H. destruct H as [_ H].
      destruct (H i tool_call Hi) as (r & Hri & ins & Hr).
      apply (runs_exec_tool_call json_dumps _ _ _ _ _ _ _ _ Hf Hk) in Hr as (o & Ho & Heq).
      rewrite (Hraise _ _ Ho) in Heq. simpl in Heq.
      destruct (exc_bool exc); [|discriminate]. by injection Heq as ->.
    + pose proof (exec_tool_calls_order self message ordered false kw sched st) as H.
      destruct (exec_tool_calls _ _ _ _ _ _ _ _).2 as [rs|e]; [|eauto].
      destruct H as [_ H].
      destruct (H i tool_call Hi) as (r & Hri & ins & Hr).
      apply (runs_exec_tool_call json_dumps _ _ _ _ _ _ _ _ Hf Hk) in Hr as (o & Ho & Heq).
      rewrite (Hraise _ _ Ho) in Heq. discriminate.
Qed.

(** The part of C5 that the code does keep: once the awaited tool function
    has returned [content], the response carries [content] itself when it is a
    [str], its JSON dump (without [None] fields, by alias) when it is a
    [BaseModel], and [json.dumps] of it otherwise, [None] included. *)
Lemma returned_content_serialized self handle_tool_exc kw tool_call tool filtered ins content :
  find_tool self (called_name tool_call) = Some tool ->
  filter_kwargs (_tool_fn tool) kw = Return filtered ->
  runs (invoke_tool tool tool_call filtered) ins (Return content) ->
  runs (_exec_tool_call json_dumps self handle_tool_exc kw tool_call) ins
       (from_call tool_call <$> content_string json_dumps content)
  /\ (forall s, content_string json_dumps (VStr s) = Return s)
  /\ (forall m, content_string json_dumps (VModel m) = model_dump_json m true true)
  /\ content_string json_dumps VNone = json_dumps VNone
  /\ (forall v, (forall s, v <> VStr s) -> (forall m, v <> VModel m) ->
        content_string json_dumps v = json_dumps v).
Proof.
  intros Hf Hk Hr. split.
  - apply (runs_exec_tool_call json_dumps _ _ _ _ _ _ _ _ Hf Hk). by exists (Return content).
  - repeat split; try done. intros v Hs Hm. destruct v; try done.
    + by destruct (Hs s).
    + by destruct (Hm m).
Qed.

(** C6.  Every response that [exec_tool_calls] returns is
    [ToolResponseMessage.from_call] of the tool call at the same position, and
    so carries that call's identifier (and the name of the function it asked
    for). *)
Theorem responses_paired_by_id self message ordered handle_tool_exc kw sched st rs :
  (exec_tool_calls json_dumps self message ordered handle_tool_exc kw sched st).2 = Return rs ->
  Forall2 (fun tool_call r =>
             (exists content, r = from_call tool_call content)
             /\ tool_call_id r = call_id tool_call
             /\ resp_name r = called_name tool_call)
          (tool_calls message) rs.
Proof.
  intros Hrs.
  pose proof (exec_tool_calls_order self message ordered handle_tool_exc kw sched st) as H.
  rewrite Hrs in H. destruct H as [Hlen H].
  apply Forall2_same_length_lookup_2; [done|].
  intros i tool_call r Hi Hr.
  destruct (H i tool_call Hi) as (r' & Hr' & ins & Hrun).
  assert (r' = r) as -> by congruence.
  assert (exists content, r = from_call tool_call content) as [content ->]; [|by eauto].
  destruct (find_tool self (called_name tool_call)) as [tool|] eqn:Hf.
  - destruct (filter_kwargs (_tool_fn tool) kw) as [filtered|e] eqn:Hk.
    + destruct (proj1 (runs_exec_tool_call json_dumps self handle_tool_exc kw
                         tool_call tool filtered ins (Return r) Hf Hk) Hrun)
        as (o & _ & Heq).
      destruct o as [content|exc]; simpl in Heq.
      * destruct (content_string json_dumps content); simplify_eq/=. eauto.
      * destruct handle_tool_exc; [|discriminate].
        destruct (exc_bool exc); simplify_eq/=. eauto.
    + rewrite (exec_tool_call_no_signature json_dumps _ _ _ _ _ _ Hf Hk) in Hrun.
      apply runs_finished in Hrun. discriminate.
  - apply find_tool_None in Hf.
    rewrite (exec_tool_call_unknown json_dumps _ _ _ _ Hf) in Hrun.
    apply runs_finished in Hrun. discriminate.
Qed.


Lemma filter_loop self (calls valid invalid : list (ToolCall St Model)) :
  fold_left
    (fun '(valid, invalid) tool_call =>
       match find_tool self (function_name (call_function tool_call)) with
       | Some _ => ((valid ++ [tool_call])%list, invalid)
       | None => (valid, (invalid ++ [tool_call])%list)
       end) calls (valid, invalid)
  = ((valid ++ filter (fun c => called_name c ∈ tool_names self) calls)%list,
     (invalid ++ filter (fun c => called_name c ∉ tool_names self) calls)%list).
Proof.
  revert valid invalid. induction calls as [|c calls IH]; intros valid invalid; simpl.
  - by rewrite !app_nil_r.
  - destruct (find_tool self (function_name (call_function c))) as [t|] eqn:Hf; rewrite IH.
    + assert (called_name c ∈ tool_names self) as Hin.
      { apply find_tool_is_Some. unfold called_name. by rewrite Hf. }
      rewrite (filter_cons_True _ c calls Hin).
      rewrite (filter_cons_False (fun c => called_name c ∉ tool_names self)) by tauto.
      by rewrite <- app_assoc.
    + assert (called_name c ∉ tool_names self) as Hin by by apply find_tool_None.
      rewrite (filter_cons_False _ c calls Hin).
      rewrite (filter_cons_True (fun c => called_name c ∉ tool_names self)) by done.
      by rewrite <- app_assoc.
Qed.

(** C4.  [filter_invalid_tool_calls] splits the tool calls of the message
    in two: the first message holds, in their order, the calls whose function
    name is the name of a tool of [self.tools]; the second holds, in their
    order, the others; together they hold each call of the input once; both
    messages keep the role, the content and the function call of the input. *)
Theorem filter_invalid_tool_calls_partition self message :
  let valid := (filter_invalid_tool_calls self message).1 in
  let invalid := (filter_invalid_tool_calls self message).2 in
  tool_calls valid = filter (fun c => called_name c ∈ tool_names self) (tool_calls message)
  /\ tool_calls invalid = filter (fun c => called_name c ∉ tool_names self) (tool_calls message)
  /\ tool_calls valid `sublist_of` tool_calls message
  /\ tool_calls invalid `sublist_of` tool_calls message
  /\ (tool_calls valid ++ tool_calls invalid)%list ≡ₚ tool_calls message
  /\ (forall c, c ∈ tool_calls valid -> c ∉ tool_calls invalid)
  /\ req_role valid = req_role message /\ req_role invalid = req_role message
  /\ req_content valid = req_content message /\ req_content invalid = req_content message
  /\ req_function_call valid = req_function_call message
  /\ req_function_call invalid = req_function_call message.
Proof.
  unfold filter_invalid_tool_calls. rewrite filter_loop. simpl.
  split; [done|]. split; [done|].
  split; [apply sublist_filter|]. split; [apply sublist_filter|].
  split; [apply filter_app_complement|].
  split; [|done].
  intros c [Hc _]%list_elem_of_filter [Hc' _]%list_elem_of_filter. done.
Qed.

End EnvClaims.

(* ===================================================================== *)
(** * exec_tool_calls and is_coroutine_callable on concrete tools *)
(* ===================================================================== *)

Section EnvExamples.
Import Fixtures.

(** C1, counterexample.  A message whose only tool call names no tool gets
    no list back, with either value of [ordered]: the call raises. *)
Lemma exec_tool_calls_no_list :
  (~ exists rs,
       (exec_tool_calls json_dumps_atoms todo_env (request [nope_call])
          true false [] [] tt).2 = Return rs
       /\ length rs = length (tool_calls (request [nope_call])))
  /\ (~ exists rs,
       (exec_tool_calls json_dumps_atoms todo_env (request [nope_call])
          false false [] [] tt).2 = Return rs
       /\ length rs = length (tool_calls (request [nope_call]))).
Proof. split; intros (rs & H & _); vm_compute in H; discriminate. Qed.

Lemma unknown_tool_rejected_witness :
  (called_name nope_call ∉ tool_names todo_env)
  /\ exec_tool_calls json_dumps_atoms todo_env (request [nope_call]) false true [] [0] tt
     = (tt, Raise (ValueError "nope not a valid function.")).
Proof.
  assert (called_name nope_call ∉ tool_names todo_env) as H.
  { apply (bool_decide_unpack _). vm_compute. exact I. }
  split; [exact H|].
  destruct (unknown_tool_rejected json_dumps_atoms todo_env true [] nope_call H)
    as (_ & _ & H3).
  apply H3. reflexivity.
Defined.

Lemma tool_exception_handling_witness :
  find_tool drain_env (called_name drain_call) = Some drain
  /\ filter_kwargs (_tool_fn drain) [] = Return []
  /\ exec_tool_calls json_dumps_atoms drain_env (request [drain_call]) false true [] [0] tt
     = (tt, Raise (UnboundLocalError "content"))
  /\ exec_tool_calls json_dumps_atoms drain_env (request [drain_call]) false false [] [0] tt
     = (tt, Raise empty_error)
  /\ find_tool todo_env (called_name cast_call) = Some cast_float
  /\ filter_kwargs (_tool_fn cast_float) [] = Return []
  /\ exec_tool_calls json_dumps_atoms todo_env (request [cast_call]) false true [] [0] tt
     = (tt, Return [from_call cast_call
         ("Failed to execute tool call for tool cast_float:" +:+ newline
          +:+ "could not convert string to float: 'abc'")])
  /\ exec_tool_calls json_dumps_atoms todo_env (request [cast_call]) false false [] [0] tt
     = (tt, Raise cast_float_error).
Proof.
  assert (find_tool drain_env (called_name drain_call) = Some drain) as Hd
    by reflexivity.
  assert (find_tool todo_env (called_name cast_call) = Some cast_float) as Hc
    by reflexivity.
  destruct (tool_exception_handling json_dumps_atoms drain_env [] drain_call drain []
              Hd eq_refl) as (_ & Hd2 & _).
  destruct (tool_exception_handling json_dumps_atoms todo_env [] cast_call cast_float []
              Hc eq_refl) as (_ & Hc2 & _).
  split; [exact Hd|]. split; [reflexivity|].
  split; [apply (Hd2 (request [drain_call]) false [0] tt tt empty_error); reflexivity|].
  split; [apply (Hd2 (request [drain_call]) false [0] tt tt empty_error); reflexivity|].
  split; [exact Hc|]. split; [reflexivity|].
  apply (Hc2 (request [cast_call]) false [0] tt tt cast_float_error); reflexivity.
Defined.

Lemma responses_paired_by_id_witness :
  (exec_tool_calls json_dumps_atoms todo_env (request [todo_async_call; cast_call])
     false true [] [1; 0] tt).2
  = Return [from_call todo_async_call "Go for a walk";
            from_call cast_call (failure_content cast_float cast_float_error)]
  /\ Forall2 (fun tool_call r =>
                (exists content, r = from_call tool_call content)
                /\ tool_call_id r = call_id tool_call
                /\ resp_name r = called_name tool_call)
             [todo_async_call; cast_call]
             [from_call todo_async_call "Go for a walk";
              from_call cast_call (failure_content cast_float cast_float_error)].
Proof.
  assert ((exec_tool_calls json_dumps_atoms todo_env (request [todo_async_call; cast_call])
     false true [] [1; 0] tt).2
  = Return [from_call todo_async_call "Go for a walk";
            from_call cast_call (failure_content cast_float cast_float_error)]) as H
    by (vm_compute; reflexivity).
  split; [exact H|].
  exact (responses_paired_by_id json_dumps_atoms todo_env _ false true [] [1; 0] tt _ H).
Defined.

(** C7 (the code departs from it).  [is_coroutine_callable] answers [True]
    for every function or method whatever its [co_flags], so also for the
    plain synchronous [get_todo_list_no_args], whose code object lacks
    [CO_COROUTINE]; accordingly its call is awaited directly and not run
    through [asyncio.to_thread]. *)
Theorem is_coroutine_callable_plain_function :
  (forall co_flags sig has_requires_state repr str body,
     is_coroutine_callable
       (St := unit) (Model := Empty_set)
       {| fn_kind := FunctionOrMethod co_flags; fn_signature := sig;
          fn_has_requires_state := has_requires_state; fn_repr := repr;
          fn_str := str; fn_body := body |} = true)
  /\ is_async_def (_tool_fn get_todo_list_no_args) = false
  /\ is_coroutine_callable (_tool_fn get_todo_list_no_args) = true
  /\ invoke_tool get_todo_list_no_args todo_call []
     = coro_bind (py_call (_tool_fn get_todo_list_no_args) ∅) await_value.
Proof. repeat split. Qed.

(** C5 (the code departs from it).  The synchronous [get_todo_list_no_args]
    runs without raising and returns the [str] "Go for a walk"; the response
    should carry that string.  Instead the string is awaited: without
    [handle_tool_exc] the call raises [TypeError], with it the content of the
    response is the failure message. *)
Theorem plain_function_result_is_awaited :
  run_all (fn_body (_tool_fn get_todo_list_no_args) ∅) tt
    = (tt, Return (VStr "Go for a walk"))
  /\ (forall ordered,
        exec_tool_calls json_dumps_atoms todo_env (request [todo_call])
          ordered false [] [0] tt
        = (tt, Raise (TypeError "object str can't be used in 'await' expression")))
  /\ (forall ordered,
        exec_tool_calls json_dumps_atoms todo_env (request [todo_call])
          ordered true [] [0] tt
        = (tt, Return [from_call todo_call
             ("Failed to execute tool call for tool get_todo_list_no_args:" +:+ newline
              +:+ "object str can't be used in 'await' expression")])).
Proof. split; [reflexivity|]. split; intros []; vm_compute; reflexivity. Qed.

End EnvExamples.

(* ===================================================================== *)
(** * Sequential and concurrent execution of pure tools *)
(* ===================================================================== *)

Section Settles.
Context {St : Type}.
Implicit Types st : St.

Lemma settles_resume {A} (o : Outcome A) (c : Coro St A) st :
  settles o c ->
  resume c st = Done st o \/ exists c', resume c st = Yield st c' /\ settles o c'.
Proof. intros [c' H]. apply H. Qed.

Lemma settles_finished {A} (o : Outcome A) : settles (St := St) o (finished o).
Proof. constructor. intros st. by left. Qed.

Lemma settles_run_all {A} (o : Outcome A) (c : Coro St A) :
  settles o c -> forall st, run_all c st = (st, o).
Proof.
  induction c as [c IH] using Coro_seg_ind. intros Hs st.
  rewrite run_all_unfold.
  destruct (settles_resume o c st Hs) as [E|(c' & E & Hs')]; rewrite E; [done|].
  by eapply IH.
Qed.

Lemma settles_atomic {A} (o : Outcome A) (c : Coro St A) :
  settles o c -> settles o (atomic c).
Proof.
  intros Hs. constructor. intros st. left. simpl.
  by rewrite (settles_run_all o c Hs st).
Qed.

Lemma settles_catch {A B} (o1 : Outcome A) (o2 : Outcome B) (c : Coro St A) h :
  settles o1 c -> settles o2 (h o1) -> settles o2 (coro_catch c h).
Proof.
  intros Hs Hh. induction c as [c IH] using Coro_seg_ind.
  constructor. intros st. rewrite coro_catch_unfold.
  destruct (settles_resume o1 c st Hs) as [E|(c' & E & Hs')]; rewrite E.
  - by apply settles_resume.
  - right. exists (coro_catch c' h). split; [done|]. by eapply IH.
Qed.

Lemma settles_runs {A} (o o' : Outcome A) (c : Coro St A) ins :
  settles o c -> runs c ins o' -> o' = o.
Proof.
  intros Hs Hr. induction Hr as [c st st' o' E|c st st' c' ins o' E _ IH].
  - destruct (settles_resume o c st Hs) as [E'|(c' & E' & _)]; congruence.
  - destruct (settles_resume o c st Hs) as [E'|(c2 & E' & Hs')]; [congruence|].
    apply IH. congruence.
Qed.

Lemma mapM_returned_cons {A} (a : A) os :
  mapM returned (Return a :: os) = cons a <$> mapM returned os.
Proof. simpl. by destruct (mapM returned os). Qed.

Lemma returned_fmap_cons {A} (a : A) (r : Outcome (list A)) :
  returned (cons a <$> r) = cons a <$> returned r.
Proof. by destruct r. Qed.

Lemma mapM_returned_raise {A} (os : list (Outcome A)) i e :
  os !! i = Some (Raise e) -> mapM returned os = None.
Proof.
  intros Hi. destruct (mapM returned os) as [k|] eqn:E; [|done].
  apply mapM_Some in E. destruct (Forall2_lookup_l _ _ _ _ _ E Hi) as (y & _ & Hy).
  discriminate.
Qed.

Lemma gather_drain_settles {A} (os : list (Outcome A)) slots st :
  Forall2 slot_settles os slots ->
  (gather_drain slots st).1 = st
  /\ returned (gather_drain slots st).2 = mapM returned os.
Proof.
  intros H. induction H as [|o s os slots Hs _ [IH1 IH2]]; [done|].
  destruct s as [a|c]; simpl in Hs.
  - subst o. rewrite mapM_returned_cons. cbn [gather_drain].
    destruct (gather_drain slots st) as [st' r]. simpl in *. subst st'.
    split; [done|]. by rewrite returned_fmap_cons, IH2.
  - cbn [gather_drain]. rewrite (settles_run_all o c Hs st). destruct o as [a|e].
    + rewrite mapM_returned_cons.
      destruct (gather_drain slots st) as [st' r]. simpl in *. subst st'.
      split; [done|]. by rewrite returned_fmap_cons, IH2.
    + split; [done|]. symmetry. by apply (mapM_returned_raise _ 0 e).
Qed.

Lemma gather_sched_settles {A} sched (os : list (Outcome A)) slots st :
  Forall2 slot_settles os slots ->
  (gather_sched sched slots st).1 = st
  /\ returned (gather_sched sched slots st).2 = mapM returned os.
Proof.
  revert slots. induction sched as [|i sched IH]; intros slots H; simpl.
  - by apply gather_drain_settles.
  - destruct (slots !! i) as [[a|c]|] eqn:Ei; [by apply IH| |by apply IH].
    destruct (Forall2_lookup_r _ _ _ _ _ H Ei) as (o & Eo & Hc). simpl in Hc.
    destruct (settles_resume o c st Hc) as [E|(c' & E & Hs')]; rewrite E.
    + destruct o as [a|e].
      * apply IH. rewrite <- (list_insert_id os i (Return a)) by done.
        by apply Forall2_insert.
      * split; [done|]. symmetry. by eapply mapM_returned_raise.
    + apply IH. rewrite <- (list_insert_id os i o) by done.
      by apply Forall2_insert.
Qed.

Lemma gather_settles {A} sched (os : list (Outcome A)) (cs : list (Coro St A)) st :
  Forall2 settles os cs ->
  (gather sched cs st).1 = st /\ returned (gather sched cs st).2 = mapM returned os.
Proof. intros H. apply gather_sched_settles. by apply Forall2_fmap_r. Qed.

Lemma await_each_settles {A} (os : list (Outcome A)) (cs : list (Coro St A)) st :
  Forall2 settles os cs ->
  (await_each cs st).1 = st /\ returned (await_each cs st).2 = mapM returned os.
Proof.
  intros H. induction H as [|o c os cs Hs _ [IH1 IH2]]; [done|].
  cbn [await_each]. rewrite (settles_run_all o c Hs st). destruct o as [a|e].
  - rewrite mapM_returned_cons.
    destruct (await_each cs st) as [st' r]. simpl in *. subst st'.
    split; [done|]. by rewrite returned_fmap_cons, IH2.
  - split; [done|]. symmetry. by apply (mapM_returned_raise _ 0 e).
Qed.

End Settles.

Section Purity.
Context {St Model : Type} `{!Pydantic Model}.
Context (json_dumps : PyVal St Model -> Outcome string).
Implicit Types (self : Environment St Model) (tool : Tool St Model)
  (tool_call : ToolCall St Model) (message : ToolRequestMessage St Model)
  (st : St) (kw : list (string * PyVal St Model)).

Lemma settles_await_value (v : PyVal St Model) :
  (forall c, v = VAwaitable c -> exists o', settles o' c) ->
  exists o', settles o' (await_value v).
Proof.
  intros H. destruct v; simpl; try (eexists; apply settles_finished).
  by apply H.
Qed.

Lemma pure_call_steps (fn : PyCallable St Model) (kw : gmap string (PyVal St Model)) :
  pure_fn fn ->
  exists o, settles o (call_steps fn kw)
    /\ forall c, o = Return (VAwaitable c) -> exists o', settles o' c.
Proof.
  intros Hp. destruct (Hp kw) as (o & Hs & Ha). unfold call_steps.
  assert (exists o0, settles o0
            (if is_async_def fn then finished (Return (VAwaitable (fn_body fn kw)))
             else fn_body fn kw)
          /\ forall c, o0 = Return (VAwaitable c) -> exists o', settles o' c) as Hgen.
  { destruct (is_async_def fn).
    - eexists. split; [apply settles_finished|]. intros c [= <-]. eauto.
    - eauto. }
  destruct (fn_kind fn); try exact Hgen.
  eexists. split; [apply settles_finished|]. intros c [=].
Qed.

Lemma pure_invoke_tool tool tool_call kw :
  pure_fn (_tool_fn tool) -> exists o, settles o (invoke_tool tool tool_call kw).
Proof.
  intros Hp. unfold invoke_tool.
  destruct (is_coroutine_callable _);
    (destruct (merge_kwargs _ _ _) as [kw'|e]; [|eexists; apply settles_finished]);
    destruct (pure_call_steps (_tool_fn tool) kw' Hp) as (o & Hs & Ha); [|by exists o].
  unfold coro_bind, py_call. destruct o as [v|e].
  - destruct (settles_await_value v) as [o' Ho']; [by intros c ->; eauto|].
    exists o'. eapply settles_catch; [by apply settles_atomic|]. done.
  - exists (Raise e). eapply settles_catch; [by apply settles_atomic|].
    apply settles_finished.
Qed.

Lemma pure_exec_tool_call self h kw tool_call :
  (forall tool, tool ∈ tools self -> pure_fn (_tool_fn tool)) ->
  exists o, settles o (_exec_tool_call json_dumps self h kw tool_call).
Proof.
  intros Hp. unfold _exec_tool_call.
  destruct (find_tool self _) as [tool|] eqn:Hf; [|eexists; apply settles_finished].
  apply find_tool_Some in Hf as [Hin _].
  destruct (filter_kwargs (_tool_fn tool) kw) as [filtered|e];
    [|eexists; apply settles_finished].
  destruct (pure_invoke_tool tool tool_call filtered (Hp _ Hin)) as [o Ho].
  exists (respond json_dumps tool h tool_call o).
  eapply settles_catch; [exact Ho|].
  destruct o as [content|exc]; simpl; [apply settles_finished|].
  destruct h; [|apply settles_finished].
  destruct (exc_bool exc); apply settles_finished.
Qed.

(** C8.  When every tool function of the environment is a pure function of
    its arguments, sequential execution ([ordered=True]) and concurrent
    execution ([ordered=False], under any interleaving) return the same list
    of responses: one returns a list exactly when the other does, and it is
    the same list; neither changes the shared state. *)
Theorem ordered_and_concurrent_agree self message handle_tool_exc kw sched st :
  (forall tool, tool ∈ tools self -> pure_fn (_tool_fn tool)) ->
  let sequential :=
    exec_tool_calls json_dumps self message true handle_tool_exc kw sched st in
  let concurrent :=
    exec_tool_calls json_dumps self message false handle_tool_exc kw sched st in
  returned sequential.2 = returned concurrent.2
  /\ (forall rs, sequential.2 = Return rs <-> concurrent.2 = Return rs)
  /\ sequential.1 = st /\ concurrent.1 = st.
Proof.
  intros Hp sequential concurrent.
  assert (exists os, Forall2 settles os
            (_exec_tool_call json_dumps self handle_tool_exc kw <$> tool_calls message))
    as [os Hos].
  { induction (tool_calls message) as [|c cs [os IH]]; [by exists []|].
    destruct (pure_exec_tool_call self handle_tool_exc kw c Hp) as [o Ho].
    exists (o :: os). by constructor. }
  destruct (await_each_settles os _ st Hos) as [Hs1 Hs2].
  destruct (gather_settles sched os _ st Hos) as [Hc1 Hc2].
  assert (returned sequential.2 = returned concurrent.2) as Heq.
  { unfold sequential, concurrent, exec_tool_calls. simpl. congruence. }
  split; [exact Heq|]. split; [|by split].
  intros rs. destruct sequential.2, concurrent.2; simpl in Heq; split; congruence.
Qed.

End Purity.

Section PurityExamples.
Import Fixtures.

Lemma ordered_and_concurrent_agree_witness :
  (forall tool, tool ∈ tools todo_env -> pure_fn (_tool_fn tool))
  /\ returned (exec_tool_calls json_dumps_atoms todo_env
                 (request [call_of "a" "get_todo_list_async" ∅;
                           call_of "b" "cast_float" {[ "x" := VStr "abc" ]}])
                 true true [] [1; 0] tt).2
     = returned (exec_tool_calls json_dumps_atoms todo_env
                 (request [call_of "a" "get_todo_list_async" ∅;
                           call_of "b" "cast_float" {[ "x" := VStr "abc" ]}])
                 false true [] [1; 0] tt).2.
Proof.
  assert (forall tool, tool ∈ tools todo_env -> pure_fn (_tool_fn tool)) as H.
  { intros tool Hin kw. simpl in Hin.
    repeat (apply elem_of_cons in Hin as [->|Hin]);
      [| | |by apply elem_of_nil in Hin];
      (eexists; split; [apply settles_finished|intros c [=]]). }
  split; [exact H|].
  apply (ordered_and_concurrent_agree json_dumps_atoms todo_env _ true [] [1; 0] tt H).
Defined.


(** The hypothesis of purity is needed: with tools that share a counter the
    two modes answer differently as soon as the tasks interleave. *)
Example interleaving_matters :
  exec_tool_calls json_dumps_atoms counter_env counter_request true false [] [] 0
    = (1, Return [from_call (call_of (St := nat) "r" "read_later" ∅) "0";
                  from_call (call_of (St := nat) "b" "bump" ∅) "null"])
  /\ exec_tool_calls json_dumps_atoms counter_env counter_request false false [] [0; 1; 0] 0
    = (1, Return [from_call (call_of (St := nat) "r" "read_later" ∅) "1";
                  from_call (call_of (St := nat) "b" "bump" ∅) "null"]).
Proof. split; vm_compute; reflexivity. Qed.

End PurityExamples.

(* ===================================================================== *)
(** * TaskDataset.iter_batches *)
(* ===================================================================== *)

Section DatasetFacts.

Lemma slice_to_pos {A} (k : Z) (l : list A) :
  (0 <= k)%Z -> slice_to k l = take (Z.to_nat k) l.
Proof. intros H. unfold slice_to. by rewrite (proj2 (Z.leb_le 0 k) H). Qed.

Lemma slice_from_pos {A} (k : Z) (l : list A) :
  (0 <= k)%Z -> slice_from k l = drop (Z.to_nat k) l.
Proof. intros H. unfold slice_from. by rewrite (proj2 (Z.leb_le 0 k) H). Qed.

Lemma ceil_div_0 b : 1 <= b -> ceil_div 0 b = 0.
Proof. intros H. unfold ceil_div. apply Nat.div_small. lia. Qed.

Lemma ceil_div_step n b : 1 <= b -> 1 <= n -> ceil_div n b = S (ceil_div (n - b) b).
Proof.
  intros Hb Hn. unfold ceil_div. destruct (decide (b <= n)) as [Hle|Hlt].
  - replace (n + b - 1) with ((n - b + b - 1) + 1 * b) by lia.
    rewrite Nat.div_add by lia. lia.
  - replace (n - b) with 0 by lia. simpl.
    rewrite (Nat.div_small (b - 1) b) by lia.
    symmetry. apply (Nat.div_unique _ _ 1 (n - 1)); lia.
Qed.

Lemma ceil_div_bounds n b :
  1 <= b -> n <= ceil_div n b * b /\ (1 <= n -> (ceil_div n b - 1) * b < n).
Proof.
  intros Hb. unfold ceil_div.
  pose proof (Nat.div_mod_eq (n + b - 1) b) as E.
  pose proof (Nat.mod_upper_bound (n + b - 1) b ltac:(lia)) as U.
  split; [nia|]. intros Hn. nia.
Qed.

Lemma index_batches_spec (b : nat) (batch_size : Z) :
  batch_size = Z.of_nat b -> 1 <= b ->
  forall fuel idcs, length idcs <= fuel * b ->
  exists batches,
    index_batches fuel batch_size idcs = (batches, true)
    /\ length batches = ceil_div (length idcs) b
    /\ concat batches = idcs
    /\ forall i batch, batches !! i = Some batch -> batch = take b (drop (i * b) idcs).
Proof.
  intros -> Hb. induction fuel as [|fuel IH]; intros idcs Hlen.
  - destruct idcs; [|simpl in Hlen; lia]. exists []. simpl.
    rewrite ceil_div_0 by done. repeat split; try done.
  - destruct idcs as [|x idcs'] eqn:Eidcs.
    { exists []. simpl. rewrite ceil_div_0 by done. repeat split; try done. }
    rewrite <- Eidcs in *. assert (1 <= length idcs) as Hn by (rewrite Eidcs; simpl; lia).
    destruct (IH (drop b idcs)) as (batches & E & Hl & Hc & Hb').
    { rewrite length_drop. lia. }
    exists (take b idcs :: batches).
    split; [|split; [|split]].
    + rewrite Eidcs. cbn [index_batches]. rewrite <- Eidcs.
      rewrite slice_to_pos, slice_from_pos by lia. rewrite Nat2Z.id. by rewrite E.
    + simpl. rewrite Hl, length_drop. symmetry. by apply ceil_div_step.
    + simpl. rewrite Hc. apply take_drop.
    + intros [|i] batch Hi; simpl in Hi.
      * injection Hi as <-. by rewrite drop_0.
      * by rewrite (Hb' i batch Hi), drop_drop.
Qed.

Context {Environment : Type}.
Implicit Types self : TaskDataset Environment.

(** C9.  For a dataset of length [n] and a batch size [b >= 1], asking the
    generator at least [ceil(n/b)] times exhausts it; it has then yielded
    [ceil(n/b)] batches, the images under [get_new_env_by_idx] of batches of
    indices whose concatenation is a rearrangement of [0 .. n-1]; each batch
    holds [b] environments except the last, which holds the remaining
    [n - b * (ceil(n/b) - 1)]; without shuffling the indices come in
    increasing order. *)
Theorem iter_batches_finite self rng n batch_size shuffle fuel :
  dataset_len self = Some n ->
  (1 <= batch_size)%Z ->
  let b := Z.to_nat batch_size in
  ceil_div n b <= fuel ->
  exists idx_batches : list (list nat),
    iter_batches self rng batch_size shuffle fuel
      = (fmap (M := list) (fmap (M := list) (get_new_env_by_idx self)) idx_batches, true)
    /\ length idx_batches = ceil_div n b
    /\ concat idx_batches ≡ₚ seq 0 n
    /\ (shuffle = false -> concat idx_batches = seq 0 n)
    /\ (forall i idx_batch, idx_batches !! i = Some idx_batch ->
          length idx_batch
          = if decide (S i < length idx_batches) then b
            else n - b * (length idx_batches - 1))
    /\ (forall i batch, (iter_batches self rng batch_size shuffle fuel).1 !! i = Some batch ->
          length batch
          = if decide (S i < ceil_div n b) then b else n - b * (ceil_div n b - 1)).
Proof.
  intros Hlen Hb b Hfuel.
  assert (1 <= b) as Hb1 by (unfold b; lia).
  assert (length (initial_idcs rng n shuffle) = n) as Hn.
  { unfold initial_idcs. destruct shuffle.
    - rewrite <- (Permutation_length (shuffled_perm rng (seq 0 n))). apply length_seq.
    - apply length_seq. }
  destruct (index_batches_spec b batch_size ltac:(unfold b; lia) Hb1 fuel
              (initial_idcs rng n shuffle)) as (batches & E & Hl & Hc & Hi).
  { rewrite Hn. pose proof (ceil_div_bounds n b Hb1) as [H1 _]. nia. }
  rewrite Hn in Hl.
  assert (forall i idx_batch, batches !! i = Some idx_batch ->
            length idx_batch
            = if decide (S i < ceil_div n b) then b else n - b * (ceil_div n b - 1))
    as Hsize.
  { intros i idx_batch Hib. rewrite (Hi i idx_batch Hib).
    rewrite length_take, length_drop, Hn.
    apply lookup_lt_Some in Hib. rewrite Hl in Hib.
    pose proof (ceil_div_bounds n b Hb1) as [H1 H2].
    assert (1 <= n) as Hn1.
    { destruct n; [|lia]. rewrite ceil_div_0 in Hib by done. lia. }
    specialize (H2 Hn1). case_decide; nia. }
  exists batches. unfold iter_batches. rewrite Hlen, E.
  split; [done|]. split; [done|]. split; [|split; [|split]].
  - rewrite Hc. unfold initial_idcs. destruct shuffle; [|done].
    symmetry. apply shuffled_perm.
  - intros ->. by rewrite Hc.
  - intros i idx_batch Hib. rewrite Hl. by apply Hsize.
  - simpl. intros i batch Hib. rewrite list_lookup_fmap in Hib.
    destruct (batches !! i) as [idx_batch|] eqn:Eb; [|done].
    injection Hib as <-. rewrite length_fmap. by apply Hsize.
Qed.

End DatasetFacts.

Section DatasetExamples.
Import Fixtures.

Lemma iter_batches_finite_witness :
  dataset_len five_envs = Some 5
  /\ (1 <= 2)%Z
  /\ ceil_div 5 (Z.to_nat 2) <= 3
  /\ iter_batches five_envs reversing 2 true 3 = ([[4; 3]; [2; 1]; [0]], true)
  /\ exists idx_batches : list (list nat),
       iter_batches five_envs reversing 2 true 3
         = (fmap (M := list) (fmap (M := list) (get_new_env_by_idx five_envs)) idx_batches,
            true)
       /\ length idx_batches = 3
       /\ concat idx_batches ≡ₚ seq 0 5.
Proof.
  assert (ceil_div 5 (Z.to_nat 2) <= 3) as Hfuel by (vm_compute; lia).
  split; [reflexivity|]. split; [lia|]. split; [exact Hfuel|]. split; [reflexivity|].
  destruct (iter_batches_finite five_envs reversing 5 2 true 3 eq_refl ltac:(lia) Hfuel)
    as (idx_batches & E & Hl & Hp & _).
  exists idx_batches. auto.
Defined.

End DatasetExamples.

(* ===================================================================== *)
(** * partial_format *)
(* ===================================================================== *)

Section FormatFacts.
Context {V : Type} `{!PyObject V}.
Implicit Types (f : Field) (items : list Markup) (kwargs : gmap string V)
  (expand : string -> Outcome string).

Lemma get_field_object_other k (v : V) name :
  arg_name name <> Keyword k ->
  exists e, get_field_object {[ k := v ]} name = Raise e.
Proof.
  intros Hne. unfold get_field_object.
  destruct (arg_name name) as [| |key|e]; eauto.
  rewrite lookup_singleton_ne by congruence. eauto.
Qed.

Lemma render_field_other expand k (v : V) f :
  field_arg f <> Keyword k -> exists e, render_field expand {[ k := v ]} f = Raise e.
Proof.
  intros Hne. unfold render_field.
  destruct (get_field_object_other k v (field_name f) Hne) as [e ->]. by exists e.
Qed.

Lemma render_markup_other expand k (v : V) items :
  Exists (fun f => field_arg f <> Keyword k) (fields_of items) ->
  exists e, render_markup expand {[ k := v ]} items = Raise e.
Proof.
  induction items as [|[text|f] items IH]; simpl; intros H.
  - by apply Exists_nil in H.
  - destruct (IH H) as [e ->]. by exists e.
  - destruct (render_field expand {[ k := v ]} f) as [s|e] eqn:E; [|by exists e].
    apply Exists_cons in H as [H|H].
    + destruct (render_field_other expand k v f H) as [e E']. congruence.
    + destruct (IH H) as [e ->]. by exists e.
Qed.

Lemma str_format_other k (v : V) value :
  Exists (fun f => field_arg f <> Keyword k) (replacement_fields value) ->
  exists e, str_format value {[ k := v ]} = Raise e.
Proof.
  intros H. unfold str_format, build_string. unfold replacement_fields in H.
  destruct (markup value) as [items err]. simpl in H.
  destruct (render_markup_other (fun spec => build_string 1 spec {[ k := v ]}) k v items H)
    as [e E].
  exists e. fold (fields_of items) in H. unfold build_string in E. by rewrite E.
Qed.

Lemma two_args_other value k :
  (exists f1 f2, f1 ∈ replacement_fields value /\ f2 ∈ replacement_fields value
     /\ field_arg f1 <> field_arg f2) ->
  Exists (fun f => field_arg f <> Keyword k) (replacement_fields value).
Proof.
  intros (f1 & f2 & H1 & H2 & Hne). apply list.Exists_exists.
  destruct (decide (field_arg f1 = Keyword k)) as [E1|E1]; [|by eauto].
  exists f2. split; [done|]. congruence.
Qed.


Lemma render_field_plain expand k (v : V) f s :
  plain_field f -> py_format v "" = Return s ->
  render_field expand {[ k := v ]} f = Return s
  \/ exists key, render_field expand {[ k := v ]} f = Raise (KeyError key).
Proof.
  intros ([key Hk] & Hpath & Hconv & Hspec & Hneeds) Hv.
  unfold render_field, get_field_object. unfold field_arg in Hk.
  rewrite Hk, Hpath, Hconv, Hneeds, Hspec.
  destruct (decide (k = key)) as [->|Hne].
  - rewrite lookup_singleton_eq. simpl. by left.
  - rewrite lookup_singleton_ne by done. simpl. eauto.
Qed.

Lemma render_markup_plain expand k (v : V) items s :
  Forall plain_field (fields_of items) -> py_format v "" = Return s ->
  Exists (fun f => field_arg f <> Keyword k) (fields_of items) ->
  exists key, render_markup expand {[ k := v ]} items = Raise (KeyError key).
Proof.
  intros Hplain Hv. induction items as [|[text|f] items IH]; simpl; intros H.
  - by apply Exists_nil in H.
  - destruct (IH Hplain H) as [key ->]. by exists key.
  - simpl in Hplain. apply Forall_cons in Hplain as [Hf Hplain].
    destruct (render_field_plain expand k v f s Hf Hv) as [E|[key E]]; rewrite E.
    + apply Exists_cons in H as [H|H].
      * destruct (render_field_other expand k v f H) as [e E']. congruence.
      * destruct (IH Hplain H) as [key ->]. by exists key.
    + by exists key.
Qed.

Lemma str_format_plain k (v : V) value s :
  Forall plain_field (replacement_fields value) -> py_format v "" = Return s ->
  Exists (fun f => field_arg f <> Keyword k) (replacement_fields value) ->
  exists key, str_format value {[ k := v ]} = Raise (KeyError key).
Proof.
  intros Hplain Hv H. unfold str_format, build_string.
  unfold replacement_fields in *. destruct (markup value) as [items err]. simpl in *.
  destruct (render_markup_plain (fun spec => build_string 1 spec {[ k := v ]})
              k v items s Hplain Hv H) as [key E].
  exists key. unfold build_string in E. by rewrite E.
Qed.

(** C10 (as amended).  Let the replacement fields of [value] name two or
    more distinct arguments.  Then no single-key [format] call succeeds, so
    [partial_format] never returns anything but [value] itself; and when the
    fields are all of the form [{key}] and the supplied values format without
    raising, every such call raises a [KeyError], which is suppressed, and
    [partial_format] returns [value] unchanged, also when [formats] supplies
    every key.  On any string, a single-key call succeeds only when every
    replacement field names that key. *)
Theorem partial_format_distinct_fields value :
  (exists f1 f2, f1 ∈ replacement_fields value /\ f2 ∈ replacement_fields value
     /\ field_arg f1 <> field_arg f2) ->
  (forall k (v : V), exists e, str_format value {[ k := v ]} = Raise e)
  /\ (forall (formats : list (string * V)) s,
        partial_format value formats = Return s -> s = value)
  /\ (forall formats : list (string * V),
        Forall plain_field (replacement_fields value) ->
        Forall (fun kv => exists s, py_format kv.2 "" = Return s) formats ->
        partial_format value formats = Return value)
  /\ (forall value' k (v : V) s,
        str_format value' {[ k := v ]} = Return s ->
        Forall (fun f => field_arg f = Keyword k) (replacement_fields value')).
Proof.
  intros Htwo. split; [|split; [|split]].
  - intros k v. apply str_format_other. by apply two_args_other.
  - induction formats as [|[k v] formats IH]; intros s; simpl.
    + by intros [= <-].
    + destruct (str_format_other k v value (two_args_other value k Htwo)) as [e ->].
      destruct (is_KeyError e); [apply IH|discriminate].
  - intros formats Hplain Hvals.
    induction Hvals as [|[k v] formats [s Hv] _ IH]; simpl; [done|].
    destruct (str_format_plain k v value s Hplain Hv (two_args_other value k Htwo))
      as [key ->].
    simpl. exact IH.
  - intros value' k v s Hs. apply Forall_forall. intros f Hf.
    destruct (decide (field_arg f = Keyword k)) as [|Hne]; [done|].
    destruct (str_format_other k v value') as [e He]; [|congruence].
    apply list.Exists_exists. eauto.
Qed.

End FormatFacts.

Section FormatExamples.

Lemma partial_format_distinct_fields_witness :
  (exists f1 f2, f1 ∈ replacement_fields "{a} and {b}"
     /\ f2 ∈ replacement_fields "{a} and {b}" /\ field_arg f1 <> field_arg f2)
  /\ partial_format "{a} and {b}" [("a", "1"); ("b", "2")] = Return "{a} and {b}".
Proof.
  assert (exists f1 f2, f1 ∈ replacement_fields "{a} and {b}"
     /\ f2 ∈ replacement_fields "{a} and {b}" /\ field_arg f1 <> field_arg f2) as H.
  { eexists _, _. split; [apply list_elem_of_here|].
    split; [apply list_elem_of_further, list_elem_of_here|]. discriminate. }
  split; [exact H|].
  destruct (partial_format_distinct_fields (V := string) "{a} and {b}" H)
    as (_ & _ & H3 & _).
  apply H3.
  - repeat constructor; by eexists.
  - repeat constructor; by eexists.
Defined.

(** C10, counterexample.  ["{0} {a}"] holds two distinct replacement
    fields, yet [partial_format] does not return it: the numbered field makes
    [format] raise [IndexError], which is not suppressed.  ["{a} {a!s}"] also
    holds two distinct replacement fields, and is substituted. *)
Lemma partial_format_not_unchanged :
  NoDup (replacement_fields "{0} {a}")
  /\ length (replacement_fields "{0} {a}") = 2
  /\ partial_format "{0} {a}" [("a", "1")] = Raise (out_of_range 0)
  /\ partial_format "{0} {a}" [("a", "1")] <> Return "{0} {a}"
  /\ NoDup (replacement_fields "{a} {a!s}")
  /\ length (replacement_fields "{a} {a!s}") = 2
  /\ partial_format "{a} {a!s}" [("a", "1")] = Return "1 1".
Proof.
  repeat split; try (vm_compute; reflexivity); try discriminate.
  - apply (bool_decide_unpack _). vm_compute. exact I.
  - apply (bool_decide_unpack _). vm_compute. exact I.
Qed.

End FormatExamples.

(* ===================================================================== *)
(** * More on exec_tool_calls and filter_invalid_tool_calls *)
(* ===================================================================== *)

Section AwaitMore.
Context {St : Type}.
Implicit Types st : St.

Lemma run_all_catch {A B} (c : Coro St A) (h : Outcome A -> Coro St B) :
  forall st, run_all (coro_catch c h) st
             = run_all (h (run_all c st).2) (run_all c st).1.
Proof.
  induction c as [c IH] using Coro_seg_ind. intros st.
  rewrite (run_all_unfold (coro_catch c h)), coro_catch_unfold, (run_all_unfold c).
  destruct (resume c st) as [st2 r|st2 c2] eqn:E.
  - simpl. by rewrite (run_all_unfold (h r)).
  - by eapply IH.
Qed.

Lemma run_all_atomic {A} (c : Coro St A) st : run_all (atomic c) st = run_all c st.
Proof. simpl. by destruct (run_all c st). Qed.

Lemma await_each_app {A} (cs1 cs2 : list (Coro St A)) st :
  await_each (cs1 ++ cs2)%list st =
  match await_each cs1 st with
  | (st', Return xs) =>
      let '(st'', r) := await_each cs2 st' in (st'', (fun ys => (xs ++ ys)%list) <$> r)
  | (st', Raise e) => (st', Raise e)
  end.
Proof.
  revert st. induction cs1 as [|c cs1 IH]; intros st; simpl.
  - destruct (await_each cs2 st) as [st' [ys|e]]; done.
  - destruct (run_all c st) as [st1 [a|e]]; [|done].
    rewrite IH. destruct (await_each cs1 st1) as [st2 [xs|e]]; simpl; [|done].
    destruct (await_each cs2 st2) as [st3 [ys|e]]; done.
Qed.

Lemma gather_sched_nil {A} sched st :
  gather_sched (A := A) sched [] st = (st, Return []).
Proof. induction sched as [|i sched IH]; simpl; [done|]. by rewrite ?lookup_nil. Qed.

End AwaitMore.

Section ExecMore.
Context {St Model : Type} `{!Pydantic Model}.
Context (json_dumps : PyVal St Model -> Outcome string).
Implicit Types (self : Environment St Model) (tool : Tool St Model)
  (tool_call : ToolCall St Model) (message : ToolRequestMessage St Model)
  (st : St) (kw filtered : list (string * PyVal St Model)).

(** X1.  A message without tool calls is answered with the empty list, in
    both modes and under any schedule, and the shared state is left as it
    was. *)
Theorem exec_tool_calls_no_calls self message ordered handle_tool_exc kw sched st :
  tool_calls message = [] ->
  exec_tool_calls json_dumps self message ordered handle_tool_exc kw sched st
  = (st, Return []).
Proof.
  intros Hm. unfold exec_tool_calls. rewrite Hm.
  destruct ordered; simpl; [done|]. apply gather_sched_nil.
Qed.

(** X2.  Sequential execution composes: executing [calls1 ++ calls2] in
    order is executing [calls1], and then, only when none of them raised,
    [calls2] on the state they left; the responses are concatenated.  After a
    call that raises no later call is run. *)
Theorem exec_tool_calls_ordered_app self message calls1 calls2 handle_tool_exc kw
    sched sched1 sched2 st :
  exec_tool_calls json_dumps self (with_calls message (calls1 ++ calls2)%list) true
    handle_tool_exc kw sched st
  = match exec_tool_calls json_dumps self (with_calls message calls1) true
            handle_tool_exc kw sched1 st with
    | (st', Return rs1) =>
        let '(st'', r) :=
          exec_tool_calls json_dumps self (with_calls message calls2) true
            handle_tool_exc kw sched2 st' in
        (st'', (fun rs2 => (rs1 ++ rs2)%list) <$> r)
    | (st', Raise e) => (st', Raise e)
    end.
Proof. unfold exec_tool_calls. simpl. rewrite fmap_app. apply await_each_app. Qed.

Lemma dict_merge_disjoint funcstr (a : gmap string (PyVal St Model)) update :
  NoDup update.*1 -> a ##ₘ list_to_map update ->
  dict_merge funcstr a update = Return (a ∪ list_to_map update).
Proof.
  revert a. induction update as [|[k v] update IH]; intros a Hnd Hd; simpl.
  - by rewrite (right_id_L ∅ (∪)).
  - simpl in Hnd, Hd. apply NoDup_cons in Hnd as [Hk Hnd].
    apply map_disjoint_insert_r in Hd as [Ha Hd]. rewrite Ha.
    assert ((list_to_map update : gmap string (PyVal St Model)) !! k = None) as Hu
      by by apply not_elem_of_list_to_map_1.
    rewrite IH; [|done|by apply map_disjoint_insert_l].
    f_equal. by rewrite <- insert_union_l, insert_union_r.
Qed.

Lemma run_all_invoke_tool tool tool_call filtered st :
  NoDup filtered.*1 ->
  function_arguments (call_function tool_call) ##ₘ list_to_map filtered ->
  is_coroutine_callable (_tool_fn tool) = true ->
  run_all (invoke_tool tool tool_call filtered) st =
  let args := function_arguments (call_function tool_call) ∪ list_to_map filtered in
  let called := run_all (call_steps (_tool_fn tool) args) st in
  match called.2 with
  | Return v => run_all (await_value v) called.1
  | Raise e => (called.1, Raise e)
  end.
Proof.
  intros Hnd Hd Hc. unfold invoke_tool, merge_kwargs.
  rewrite Hc, (dict_merge_disjoint _ _ _ Hnd Hd). unfold coro_bind, py_call.
  rewrite run_all_catch, run_all_atomic. simpl.
  by destruct (run_all (call_steps _ _) st) as [st' [v|e]].
Qed.

(** X3.  A tool function written with [async def] is awaited: when its body,
    run on the call's arguments and the keyword arguments left after the
    filtering of [state], returns [content], a message of that call alone is
    answered with the one response holding the string made of [content]; the
    state is the one the body left. *)
Theorem async_tool_answers self message tool_call tool ordered handle_tool_exc kw
    filtered sched st st' content s :
  tool_calls message = [tool_call] ->
  find_tool self (called_name tool_call) = Some tool ->
  is_async_def (_tool_fn tool) = true ->
  filter_kwargs (_tool_fn tool) kw = Return filtered ->
  NoDup filtered.*1 ->
  function_arguments (call_function tool_call) ##ₘ list_to_map filtered ->
  run_all (fn_body (_tool_fn tool)
             (function_arguments (call_function tool_call) ∪ list_to_map filtered)) st
    = (st', Return content) ->
  content_string json_dumps content = Return s ->
  exec_tool_calls json_dumps self message ordered handle_tool_exc kw sched st
  = (st', Return [from_call tool_call s]).
Proof.
  intros Hm Hf Ha Hk Hnd Hd Hb Hs.
  assert (is_coroutine_callable (_tool_fn tool) = true) as Hc.
  { unfold is_async_def in Ha. unfold is_coroutine_callable.
    by destruct (fn_kind (_tool_fn tool)). }
  rewrite (exec_tool_calls_single json_dumps _ _ _ _ _ _ _ _ Hm).
  rewrite (run_all_exec_tool_call json_dumps _ _ _ _ _ _ _ Hf Hk).
  rewrite (run_all_invoke_tool _ _ _ _ Hnd Hd Hc). unfold call_steps.
  assert (forall t, fn_kind (_tool_fn tool) <> NotCallable t) as Hn.
  { intros t Ht. unfold is_async_def in Ha. by rewrite Ht in Ha. }
  destruct (fn_kind (_tool_fn tool)) eqn:Ek; try (by destruct (Hn type_name));
    rewrite Ha; simpl; rewrite Hb; simpl; by rewrite Hs.
Qed.

(** X4.  A plain synchronous function or method is called and its result is
    awaited: when its body returns a value that is not awaitable, the call
    raises [TypeError("object <type> can't be used in 'await' expression")]
    after the body has had its effects; a message of that call alone raises it
    without [handle_tool_exc] and gets the failure message with it. *)
Theorem plain_tool_result_awaited self message tool_call tool ordered kw filtered
    sched st st' v :
  tool_calls message = [tool_call] ->
  find_tool self (called_name tool_call) = Some tool ->
  is_coroutine_callable (_tool_fn tool) = true ->
  is_async_def (_tool_fn tool) = false ->
  filter_kwargs (_tool_fn tool) kw = Return filtered ->
  NoDup filtered.*1 ->
  function_arguments (call_function tool_call) ##ₘ list_to_map filtered ->
  run_all (fn_body (_tool_fn tool)
             (function_arguments (call_function tool_call) ∪ list_to_map filtered)) st
    = (st', Return v) ->
  (forall c, v <> VAwaitable c) ->
  let exc := TypeError ("object " +:+ type_name_of v
                        +:+ " can't be used in 'await' expression") in
  exec_tool_calls json_dumps self message ordered false kw sched st = (st', Raise exc)
  /\ exec_tool_calls json_dumps self message ordered true kw sched st
     = (st', Return [from_call tool_call (failure_content tool exc)]).
Proof.
  intros Hm Hf Hc Ha Hk Hnd Hd Hb Hv exc.
  rewrite !(exec_tool_calls_single json_dumps _ _ _ _ _ _ _ _ Hm).
  rewrite !(run_all_exec_tool_call json_dumps _ _ _ _ _ _ _ Hf Hk).
  rewrite (run_all_invoke_tool _ _ _ _ Hnd Hd Hc). unfold call_steps.
  assert (forall t, fn_kind (_tool_fn tool) <> NotCallable t) as Hn.
  { intros t Ht. unfold is_coroutine_callable in Hc. by rewrite Ht in Hc. }
  assert (run_all (await_value v) st' = (st', Raise exc)) as Hw.
  { destruct v; try done. by destruct (Hv c). }
  destruct (fn_kind (_tool_fn tool)) eqn:Ek; try (by destruct (Hn type_name));
    rewrite Ha; simpl; rewrite Hb; simpl; by rewrite Hw.
Qed.

(** X5.  [handle_tool_exc] covers the tool function only: when the tool
    function returns [content] and making the string of [content] raises
    ([json.dumps] or [model_dump_json]), that exception leaves
    [exec_tool_calls] even with [handle_tool_exc]. *)
Theorem serialization_error_propagates self message tool_call tool ordered
    handle_tool_exc kw filtered sched st st' content e :
  tool_calls message = [tool_call] ->
  find_tool self (called_name tool_call) = Some tool ->
  filter_kwargs (_tool_fn tool) kw = Return filtered ->
  run_all (invoke_tool tool tool_call filtered) st = (st', Return content) ->
  content_string json_dumps content = Raise e ->
  exec_tool_calls json_dumps self message ordered handle_tool_exc kw sched st
  = (st', Raise e).
Proof.
  intros Hm Hf Hk Hr Hs.
  rewrite (exec_tool_calls_single json_dumps _ _ _ _ _ _ _ _ Hm).
  rewrite (run_all_exec_tool_call json_dumps _ _ _ _ _ _ _ Hf Hk).
  simpl. rewrite Hr. simpl. by rewrite Hs.
Qed.


Lemma filter_all {A} (P : A -> Prop) `{!forall x, Decision (P x)} (l : list A) :
  Forall P l -> filter P l = l.
Proof.
  induction 1 as [|x l Hx _ IH]; [done|]. by rewrite filter_cons_True, IH.
Qed.

Lemma filter_none {A} (P : A -> Prop) `{!forall x, Decision (P x)} (l : list A) :
  Forall (fun x => ~ P x) l -> filter P l = [].
Proof.
  induction 1 as [|x l Hx _ IH]; [done|]. by rewrite filter_cons_False.
Qed.

Lemma Forall_filter {A} (P : A -> Prop) `{!forall x, Decision (P x)} (l : list A) :
  Forall P (filter P l).
Proof. apply Forall_forall. by intros x [? _]%list_elem_of_filter. Qed.

(** X6.  Filtering is idempotent: the valid part of a message is all valid
    and the invalid part all invalid, so filtering either again returns it
    beside a message with no tool calls. *)
Theorem filter_invalid_tool_calls_again self message :
  let valid := (filter_invalid_tool_calls self message).1 in
  let invalid := (filter_invalid_tool_calls self message).2 in
  filter_invalid_tool_calls self valid = (valid, with_calls message [])
  /\ filter_invalid_tool_calls self invalid = (with_calls message [], invalid).
Proof.
  unfold filter_invalid_tool_calls at 1 2. rewrite filter_loop. cbn zeta. simpl.
  split.
  - unfold filter_invalid_tool_calls. rewrite filter_loop. simpl.
    rewrite (filter_all _ _ (Forall_filter _ _)).
    rewrite (filter_none (fun c => called_name c ∉ tool_names self)); [done|].
    eapply Forall_impl; [apply Forall_filter|]. simpl. tauto.
  - unfold filter_invalid_tool_calls. rewrite filter_loop. simpl.
    rewrite (filter_all (fun c => called_name c ∉ tool_names self) _ (Forall_filter _ _)).
    rewrite (filter_none (fun c => called_name c ∈ tool_names self)); [done|].
    apply Forall_filter.
Qed.

(** X7.  After the filtering, executing the valid part with
    [handle_tool_exc] returns one response per call, or it raises an
    exception of one of three origins: [inspect.signature] raised while
    [state] was filtered, which is outside the [try]; a tool function raised
    a falsy exception and [content] was read unbound; or making the string of
    a returned content raised. *)
Theorem valid_calls_failures self message ordered kw sched st :
  let valid := (filter_invalid_tool_calls self message).1 in
  match (exec_tool_calls json_dumps self valid ordered true kw sched st).2 with
  | Return rs => length rs = length (tool_calls valid)
  | Raise e =>
      exists tool_call tool,
        tool_call ∈ tool_calls valid
        /\ find_tool self (called_name tool_call) = Some tool
        /\ (filter_kwargs (_tool_fn tool) kw = Raise e
            \/ exists filtered ins,
                 filter_kwargs (_tool_fn tool) kw = Return filtered
                 /\ ((exists exc,
                        runs (invoke_tool tool tool_call filtered) ins (Raise exc)
                        /\ exc_bool exc = false
                        /\ e = UnboundLocalError "content")
                     \/ (exists content,
                           runs (invoke_tool tool tool_call filtered) ins (Return content)
                           /\ content_string json_dumps content = Raise e)))
  end.
Proof.
  intros valid.
  pose proof (exec_tool_calls_answers json_dumps self valid ordered true kw sched st) as H.
  destruct (exec_tool_calls _ _ _ _ _ _ _ _).2 as [rs|e]; simpl in H.
  - apply Forall2_fmap_l in H. symmetry. by eapply Forall2_length.
  - apply list.Exists_exists in H as (c & Hc & ins & Hr).
    apply list_elem_of_fmap in Hc as (tool_call & -> & Hin).
    assert (called_name tool_call ∈ tool_names self) as Hn.
    { unfold valid, filter_invalid_tool_calls in Hin. rewrite filter_loop in Hin.
      simpl in Hin. by apply list_elem_of_filter in Hin as [? _]. }
    apply find_tool_is_Some in Hn as [tool Hf].
    exists tool_call, tool. split; [done|]. split; [done|].
    destruct (filter_kwargs (_tool_fn tool) kw) as [filtered|e'] eqn:Hk.
    + right. exists filtered, ins. split; [done|].
      destruct (proj1 (runs_exec_tool_call json_dumps self true kw tool_call tool
                         filtered ins (Raise e) Hf Hk) Hr) as (o & Ho & Heq).
      destruct o as [content|exc]; simpl in Heq.
      * right. exists content. split; [done|].
        destruct (content_string json_dumps content) as [s|e''] eqn:Es; simpl in Heq;
          [discriminate|].
        by injection Heq as ->.
      * left. exists exc. split; [done|].
        destruct (exc_bool exc); [discriminate|]. split; [done|]. by injection Heq as ->.
    + left. rewrite (exec_tool_call_no_signature json_dumps _ _ _ _ _ _ Hf Hk) in Hr.
      apply runs_finished in Hr. by injection Hr as ->.
Qed.

End ExecMore.

Section ExecMoreExamples.
Import Fixtures.

Lemma exec_tool_calls_no_calls_witness :
  tool_calls (request (St := unit) []) = []
  /\ exec_tool_calls json_dumps_atoms todo_env (request []) false true [] [0; 1] tt
     = (tt, Return []).
Proof.
  split; [reflexivity|].
  apply (exec_tool_calls_no_calls json_dumps_atoms todo_env (request [])
           false true [] [0; 1] tt).
  reflexivity.
Defined.

Lemma async_tool_answers_witness :
  tool_calls (request [todo_async_call]) = [todo_async_call]
  /\ find_tool todo_env (called_name todo_async_call) = Some get_todo_list_async
  /\ is_async_def (_tool_fn get_todo_list_async) = true
  /\ filter_kwargs (_tool_fn get_todo_list_async) [("state", VNone)] = Return []
  /\ exec_tool_calls json_dumps_atoms todo_env (request [todo_async_call])
       false false [("state", VNone)] [0] tt
     = (tt, Return [from_call todo_async_call "Go for a walk"]).
Proof.
  assert (function_arguments (call_function todo_async_call)
            ##ₘ (list_to_map [] : gmap string (PyVal unit Empty_set))) as Hd
    by apply map_disjoint_empty_l.
  split; [reflexivity|]. split; [reflexivity|]. split; [reflexivity|].
  split; [reflexivity|].
  apply (async_tool_answers json_dumps_atoms todo_env (request [todo_async_call])
           todo_async_call get_todo_list_async false false [("state", VNone)] []
           [0] tt tt (VStr "Go for a walk") "Go for a walk"
           eq_refl eq_refl eq_refl eq_refl (NoDup_nil_2 (A := string)) Hd eq_refl eq_refl).
Defined.

Lemma plain_tool_result_awaited_witness :
  tool_calls (request [todo_call]) = [todo_call]
  /\ find_tool todo_env (called_name todo_call) = Some get_todo_list_no_args
  /\ is_coroutine_callable (_tool_fn get_todo_list_no_args) = true
  /\ is_async_def (_tool_fn get_todo_list_no_args) = false
  /\ filter_kwargs (_tool_fn get_todo_list_no_args) [] = Return []
  /\ exec_tool_calls json_dumps_atoms todo_env (request [todo_call]) true false [] [] tt
     = (tt, Raise (TypeError "object str can't be used in 'await' expression")).
Proof.
  assert (function_arguments (call_function todo_call)
            ##ₘ (list_to_map [] : gmap string (PyVal unit Empty_set))) as Hd
    by apply map_disjoint_empty_l.
  split; [reflexivity|]. split; [reflexivity|]. split; [reflexivity|].
  split; [reflexivity|]. split; [reflexivity|].
  apply (plain_tool_result_awaited json_dumps_atoms todo_env (request [todo_call])
           todo_call get_todo_list_no_args true [] [] [] tt tt (VStr "Go for a walk")
           eq_refl eq_refl eq_refl eq_refl eq_refl (NoDup_nil_2 (A := string)) Hd eq_refl).
  intros c Hc. discriminate Hc.
Defined.

Lemma serialization_error_propagates_witness :
  tool_calls (request [unique_call]) = [unique_call]
  /\ find_tool unique_env (called_name unique_call) = Some unique
  /\ filter_kwargs (_tool_fn unique) [] = Return []
  /\ run_all (invoke_tool unique unique_call []) tt = (tt, Return (VObject "set"))
  /\ content_string (St := unit) json_dumps_no_sets (VObject "set")
     = Raise (TypeError "Object of type set is not JSON serializable")
  /\ exec_tool_calls json_dumps_no_sets unique_env (request [unique_call])
       false true [] [0] tt
     = (tt, Raise (TypeError "Object of type set is not JSON serializable")).
Proof.
  assert (run_all (invoke_tool unique unique_call []) tt
          = (tt, Return (VObject "set"))) as Hr by reflexivity.
  assert (content_string (St := unit) json_dumps_no_sets (VObject "set")
          = Raise (TypeError "Object of type set is not JSON serializable")) as Hs
    by reflexivity.
  split; [reflexivity|]. split; [reflexivity|]. split; [reflexivity|].
  split; [exact Hr|]. split; [exact Hs|].
  exact (serialization_error_propagates json_dumps_no_sets unique_env
           (request [unique_call]) unique_call unique false true [] [] [0] tt tt
           (VObject "set") _ eq_refl eq_refl eq_refl Hr Hs).
Defined.

End ExecMoreExamples.

(* ===================================================================== *)
(** * iter_batches at the bounds *)
(* ===================================================================== *)

Section DatasetMore.

Lemma slice_from_nonpos_length {A} (k : Z) (l : list A) :
  (k <= 0)%Z -> 1 <= length l -> 1 <= length (slice_from k l).
Proof.
  intros Hk Hl. unfold slice_from. destruct (0 <=? k)%Z eqn:E.
  - apply Z.leb_le in E. replace k with 0%Z by lia. simpl. by rewrite drop_0.
  - rewrite length_drop. apply Z.leb_gt in E. lia.
Qed.

Lemma index_batches_nonpos (batch_size : Z) :
  (batch_size <= 0)%Z ->
  forall fuel idcs, 1 <= length idcs ->
    (index_batches fuel batch_size idcs).2 = false
    /\ length (index_batches fuel batch_size idcs).1 = fuel.
Proof.
  intros Hb. induction fuel as [|fuel IH]; intros idcs Hl.
  - destruct idcs; [simpl in Hl; lia|done].
  - destruct idcs as [|x idcs']; [simpl in Hl; lia|].
    cbn [index_batches].
    destruct (IH (slice_from batch_size (x :: idcs'))) as [H1 H2].
    { by apply slice_from_nonpos_length. }
    destruct (index_batches fuel batch_size (slice_from batch_size (x :: idcs')))
      as [bs ended].
    simpl in *. by rewrite H1, H2.
Qed.

Context {Environment : Type}.
Implicit Types self : TaskDataset Environment.

(** X8.  With a batch size of zero or less the loop over a non-empty finite
    dataset never ends: however often the generator is asked it yields another
    batch and is not exhausted. *)
Theorem iter_batches_nonpositive_batch_size self rng n batch_size shuffle fuel :
  dataset_len self = Some n ->
  1 <= n ->
  (batch_size <= 0)%Z ->
  (iter_batches self rng batch_size shuffle fuel).2 = false
  /\ length (iter_batches self rng batch_size shuffle fuel).1 = fuel.
Proof.
  intros Hlen Hn Hb. unfold iter_batches. rewrite Hlen.
  destruct (index_batches_nonpos batch_size Hb fuel (initial_idcs rng n shuffle))
    as [H1 H2].
  { unfold initial_idcs. destruct shuffle.
    - rewrite <- (Permutation_length (shuffled_perm rng (seq 0 n))), length_seq. lia.
    - rewrite length_seq. lia. }
  destruct (index_batches fuel batch_size (initial_idcs rng n shuffle)) as [bs ended].
  simpl in *. by rewrite length_fmap.
Qed.

(** X9.  An empty finite dataset yields no batch and is exhausted at once,
    whatever the batch size and whether or not it is shuffled. *)
Theorem iter_batches_empty_dataset self rng batch_size shuffle fuel :
  dataset_len self = Some 0 ->
  iter_batches self rng batch_size shuffle fuel = ([], true).
Proof.
  intros Hlen. unfold iter_batches. rewrite Hlen.
  assert (initial_idcs rng 0 shuffle = []) as ->.
  { unfold initial_idcs. destruct shuffle; [|done]. simpl.
    apply Permutation_nil. apply shuffled_perm. }
  by destruct fuel.
Qed.

End DatasetMore.

Section DatasetMoreExamples.
Import Fixtures.

Lemma iter_batches_nonpositive_batch_size_witness :
  dataset_len five_envs = Some 5
  /\ 1 <= 5
  /\ (-2 <= 0)%Z
  /\ iter_batches five_envs reversing (-2) false 4 = ([[0; 1; 2]; []; []; []], false)
  /\ (iter_batches five_envs reversing (-2) false 4).2 = false.
Proof.
  split; [reflexivity|]. split; [lia|]. split; [lia|]. split; [reflexivity|].
  apply (iter_batches_nonpositive_batch_size five_envs reversing 5 (-2) false 4
           eq_refl); lia.
Defined.

Lemma iter_batches_empty_dataset_witness :
  dataset_len no_envs = Some 0
  /\ iter_batches no_envs reversing 3 true 7 = ([], true).
Proof.
  split; [reflexivity|].
  exact (iter_batches_empty_dataset no_envs reversing 3 true 7 eq_refl).
Defined.

End DatasetMoreExamples.

(* ===================================================================== *)
(** * partial_format: what a format call does to the string *)
(* ===================================================================== *)

Section FormatMore.
Context {V : Type} `{!PyObject V}.
Implicit Types (f : Field) (items : list Markup) (kwargs : gmap string V)
  (expand : string -> Outcome string).

Lemma append_cons c (s t : string) : String c s +:+ t = String c (s +:+ t).
Proof. reflexivity. Qed.

Lemma append_nil_r (s : string) : s +:+ "" = s.
Proof. induction s as [|c s IH]; [done|]. by rewrite append_cons, IH. Qed.

Lemma snoc_append (text : string) c rest : snoc text c +:+ rest = text +:+ String c rest.
Proof.
  unfold snoc. induction text as [|d text IH]; [done|]. by rewrite !append_cons, IH.
Qed.

Lemma markup_from_brace_free (s text : string) :
  brace_free s = true -> markup_from (InLiteral text) s = ([Literal (text +:+ s)], None).
Proof.
  revert text. induction s as [|c s IH]; intros text Hs; simpl.
  - by rewrite append_nil_r.
  - simpl in Hs. apply andb_prop in Hs as [Hc Hs]. apply andb_prop in Hc as [Ho Hc].
    apply negb_true_iff in Ho, Hc. rewrite Ho, Hc.
    by rewrite (IH _ Hs), snoc_append.
Qed.

Lemma render_markup_fill expand k (v : V) s items :
  Forall (fun f => plain_field f /\ field_arg f = Keyword k) (fields_of items) ->
  py_format v "" = Return s ->
  render_markup expand {[ k := v ]} items = Return (fill s items).
Proof.
  intros Hf Hv. induction items as [|[text|f] items IH]; simpl; [done| |].
  - by rewrite (IH Hf).
  - simpl in Hf. apply Forall_cons in Hf as [[Hp Hk] Hf].
    destruct Hp as (_ & Hpath & Hconv & Hspec & Hneeds).
    unfold render_field, get_field_object. unfold field_arg in Hk.
    rewrite Hk, Hpath, Hconv, Hneeds, Hspec, lookup_singleton_eq. simpl.
    rewrite Hv. simpl. by rewrite (IH Hf).
Qed.

Lemma render_markup_literals expand kwargs items :
  fields_of items = [] -> render_markup expand kwargs items = Return (fill "" items).
Proof.
  induction items as [|[text|f] items IH]; simpl; intros Hf; [done| |done].
  by rewrite (IH Hf).
Qed.

(** X10.  A string without braces is returned as it is, whatever [formats]
    holds: no key is looked up and nothing is raised. *)
Theorem partial_format_brace_free value (formats : list (string * V)) :
  brace_free value = true -> partial_format value formats = Return value.
Proof.
  intros Hb. induction formats as [|[k v] formats IH]; simpl; [done|].
  unfold str_format, build_string, markup.
  rewrite (markup_from_brace_free value "" Hb). simpl. by rewrite append_nil_r.
Qed.

(** X11.  When the format string is well formed and each of its replacement
    fields is the plain field of one key, formatting with that key puts the
    formatted value in the place of every field and undoes the brace escapes. *)
Theorem partial_format_single_key value k (v : V) s :
  (markup value).2 = None ->
  Forall (fun f => plain_field f /\ field_arg f = Keyword k) (replacement_fields value) ->
  py_format v "" = Return s ->
  partial_format value [(k, v)] = Return (fill s (markup value).1).
Proof.
  intros Herr Hf Hv. simpl. unfold str_format, build_string.
  unfold replacement_fields in Hf. destruct (markup value) as [items err].
  simpl in *. subst err.
  by rewrite (render_markup_fill _ k v s items Hf Hv).
Qed.

(** X12.  On a well-formed string without replacement fields every format
    call succeeds and undoes the brace escapes once; [partial_format] goes on
    with the unescaped string, in which a field that was escaped is a field. *)
Theorem partial_format_unescapes value k (v : V) (formats : list (string * V)) :
  (markup value).2 = None ->
  replacement_fields value = [] ->
  partial_format value ((k, v) :: formats)
  = partial_format (fill "" (markup value).1) formats.
Proof.
  intros Herr Hf. simpl. unfold str_format, build_string.
  unfold replacement_fields in Hf. destruct (markup value) as [items err].
  simpl in *. subst err.
  by rewrite (render_markup_literals _ _ items Hf).
Qed.

Lemma markup_from_error_class n :
  forall s q e, String.length s <= n ->
    (markup_from q s).2 = Some e -> exc_class e = "ValueError".
Proof.
  induction n as [|n IH]; intros s q e Hlen.
  - destruct s; [|simpl in Hlen; lia].
    destruct q; simpl; try discriminate; by intros [= <-].
  - destruct s as [|c rest]; [destruct q; simpl; try discriminate; by intros [= <-]|].
    simpl in Hlen.
    destruct q; cbn [markup_from]; repeat case_match; subst;
      try (by intros [= <-]); unfold emit; cbn [snd];
      try (apply IH; simpl in *; lia).
Qed.

Lemma markup_error_class value e :
  (markup value).2 = Some e -> exc_class e = "ValueError".
Proof. apply (markup_from_error_class (String.length value)). lia. Qed.

(** X13.  A malformed format string with no replacement field before the
    error makes the first format call raise a [ValueError], which
    [partial_format] does not suppress: it raises as soon as [formats] holds
    one entry. *)
Theorem partial_format_syntax_error value e k (v : V) (formats : list (string * V)) :
  (markup value).2 = Some e ->
  replacement_fields value = [] ->
  partial_format value ((k, v) :: formats) = Raise e /\ exc_class e = "ValueError".
Proof.
  intros Herr Hf. pose proof (markup_error_class value e Herr) as Hc. split; [|done].
  simpl. unfold str_format, build_string.
  unfold replacement_fields in Hf. destruct (markup value) as [items err].
  simpl in *. subst err.
  rewrite (render_markup_literals _ _ items Hf). simpl.
  unfold is_KeyError. by rewrite bool_decide_eq_false_2 by (rewrite Hc; discriminate).
Qed.

(** X14.  A key that some replacement field does not name is skipped: when
    the fields are all of the form [{key}], the call for such a key raises a
    [KeyError], which is suppressed, and [partial_format] goes on with the
    string as it was. *)
Theorem partial_format_missing_key value k (v : V) s (formats : list (string * V)) :
  Forall plain_field (replacement_fields value) ->
  Exists (fun f => field_arg f <> Keyword k) (replacement_fields value) ->
  py_format v "" = Return s ->
  partial_format value ((k, v) :: formats) = partial_format value formats.
Proof.
  intros Hplain Hother Hv. simpl.
  by destruct (str_format_plain k v value s Hplain Hv Hother) as [key ->].
Qed.

(** X15.  Formatting with [formats1] followed by [formats2] is formatting
    with [formats1] and then formatting the result with [formats2]; an
    exception raised under [formats1] ends the whole call. *)
Theorem partial_format_app value (formats1 formats2 : list (string * V)) :
  partial_format value (formats1 ++ formats2)%list
  = match partial_format value formats1 with
    | Return value' => partial_format value' formats2
    | Raise e => Raise e
    end.
Proof.
  revert value. induction formats1 as [|[k v] formats1 IH]; intros value; simpl; [done|].
  destruct (str_format value {[ k := v ]}) as [value'|e]; [apply IH|].
  destruct (is_KeyError e); [apply IH|done].
Qed.

End FormatMore.

Section FormatMoreExamples.

Lemma partial_format_brace_free_witness :
  brace_free "no fields here" = true
  /\ partial_format "no fields here" [("a", "1"); ("b", "2")] = Return "no fields here".
Proof.
  split; [reflexivity|].
  apply (partial_format_brace_free "no fields here"). reflexivity.
Defined.

Lemma partial_format_single_key_witness :
  (markup "{a}, {{b}} and {a}").2 = None
  /\ Forall (fun f => plain_field f /\ field_arg f = Keyword "a")
       (replacement_fields "{a}, {{b}} and {a}")
  /\ partial_format "{a}, {{b}} and {a}" [("a", "1")] = Return "1, {b} and 1".
Proof.
  assert (Forall (fun f => plain_field f /\ field_arg f = Keyword "a")
            (replacement_fields "{a}, {{b}} and {a}")) as Hf.
  { vm_compute. repeat constructor; by eexists. }
  split; [reflexivity|]. split; [exact Hf|].
  apply (partial_format_single_key "{a}, {{b}} and {a}" "a" "1" "1");
    [reflexivity|exact Hf|reflexivity].
Defined.

Lemma partial_format_unescapes_witness :
  (markup "{{a}}").2 = None
  /\ replacement_fields "{{a}}" = []
  /\ partial_format "{{a}}" [("b", "2"); ("a", "1")] = Return "1".
Proof.
  split; [reflexivity|]. split; [reflexivity|].
  etrans; [apply (partial_format_unescapes "{{a}}" "b" "2" [("a", "1")]); reflexivity|].
  reflexivity.
Defined.

Lemma partial_format_syntax_error_witness :
  (markup "50% } off").2 = Some (ValueError "Single '}' encountered in format string")
  /\ replacement_fields "50% } off" = []
  /\ partial_format "50% } off" [("a", "1")]
     = Raise (ValueError "Single '}' encountered in format string").
Proof.
  split; [reflexivity|]. split; [reflexivity|].
  apply (partial_format_syntax_error "50% } off" _ "a" "1" []); reflexivity.
Defined.

Lemma partial_format_missing_key_witness :
  Forall plain_field (replacement_fields "Hello {name}")
  /\ Exists (fun f => field_arg f <> Keyword "city") (replacement_fields "Hello {name}")
  /\ partial_format "Hello {name}" [("city", "Oslo"); ("name", "Ada")] = Return "Hello Ada".
Proof.
  assert (Forall plain_field (replacement_fields "Hello {name}")) as Hp.
  { vm_compute. repeat constructor; by eexists. }
  assert (Exists (fun f => field_arg f <> Keyword "city")
            (replacement_fields "Hello {name}")) as He.
  { vm_compute. left. discriminate. }
  split; [exact Hp|]. split; [exact He|].
  etrans; [exact (partial_format_missing_key "Hello {name}" "city" "Oslo" "Oslo"
                    [("name", "Ada")] Hp He eq_refl)|].
  reflexivity.
Defined.

End FormatMoreExamples.

(* ===================================================================== *)
(** * GSM8kDataset: the splits *)
(* ===================================================================== *)

Section SplitArithmetic.

Lemma reset_index_snoc {A} (rows : list A) (x : A) :
  GSM8k.reset_index (rows ++ [x])%list
  = (GSM8k.reset_index rows ++ [(length rows, x)])%list.
Proof.
  unfold GSM8k.reset_index. rewrite imap_app. simpl. by rewrite Nat.add_0_r.
Qed.

Lemma reset_index_labels {A} (P : nat -> Prop) `{!forall i, Decision (P i)}
    (rows : list A) :
  (filter (fun row => P row.1) (GSM8k.reset_index rows)).*1
  = filter P (seq 0 (length rows)).
Proof.
  induction rows as [|x rows IH] using rev_ind; [done|].
  rewrite reset_index_snoc, length_app, Nat.add_1_r, seq_S, !filter_app, fmap_app, IH.
  f_equal. simpl. rewrite !filter_cons, !filter_nil. simpl.
  by destruct (decide (P (length rows))).
Qed.

Lemma reset_index_rows {A} (P : nat * A -> Prop) `{!forall r, Decision (P r)}
    (rows : list A) :
  Forall (fun row => rows !! row.1 = Some row.2) (filter P (GSM8k.reset_index rows)).
Proof.
  apply Forall_forall. intros [i x] [_ Hin]%list_elem_of_filter.
  apply list_elem_of_lookup in Hin as [k Hk]. unfold GSM8k.reset_index in Hk.
  rewrite list_lookup_imap in Hk. destruct (rows !! k) eqn:E; simpl in Hk; [|done].
  by injection Hk as <- <-.
Qed.

Lemma reset_index_all_labels {A} (rows : list A) :
  (GSM8k.reset_index rows).*1 = seq 0 (length rows).
Proof.
  induction rows as [|x rows IH] using rev_ind; [done|].
  by rewrite reset_index_snoc, length_app, Nat.add_1_r, seq_S, fmap_app, IH.
Qed.

Lemma reset_index_all_rows {A} (rows : list A) :
  Forall (fun row => rows !! row.1 = Some row.2) (GSM8k.reset_index rows).
Proof.
  apply Forall_forall. intros [i x] Hin.
  apply list_elem_of_lookup in Hin as [k Hk]. unfold GSM8k.reset_index in Hk.
  rewrite list_lookup_imap in Hk. destruct (rows !! k) eqn:E; simpl in Hk; [|done].
  by injection Hk as <- <-.
Qed.

Lemma cases_mod_5 n :
  exists q r, n = 5 * q + r /\ r < 5 /\ n mod 5 = r
              /\ (n + 4) / 5 = (if r is 0 then q else S q)
              /\ (n + 5) / 5 = S q.
Proof.
  exists (n / 5), (n mod 5).
  pose proof (Nat.div_mod_eq n 5) as E.
  pose proof (Nat.mod_upper_bound n 5 ltac:(lia)) as U.
  split; [lia|]. split; [lia|]. split; [done|]. split.
  - destruct (n mod 5) as [|r] eqn:Er.
    + symmetry. apply (Nat.div_unique _ _ _ 4); lia.
    + symmetry. apply (Nat.div_unique _ _ _ r); lia.
  - symmetry. apply (Nat.div_unique _ _ _ (n mod 5)); lia.
Qed.

(** The labels a multiple of five, in increasing order. *)
Lemma every_fifth n :
  filter (fun i => i mod 5 = 0) (seq 0 n) = (fun k => 5 * k) <$> seq 0 ((n + 4) / 5).
Proof.
  induction n as [|n IH]; [done|].
  rewrite seq_S, filter_app, IH, Nat.add_0_l, filter_cons, filter_nil.
  destruct (cases_mod_5 n) as (q & r & Hn & Hr & Hm & Hc & Hc').
  replace (S n + 4) with (n + 5) by lia. rewrite Hc', Hc, Hm.
  destruct r as [|r].
  - rewrite decide_True by done. rewrite seq_S, fmap_app. simpl. do 3 f_equal. lia.
  - rewrite decide_False by done. by rewrite app_nil_r.
Qed.

(** The labels not a multiple of five, in increasing order. *)
Lemma all_but_every_fifth n :
  filter (fun i => i mod 5 <> 0) (seq 0 n)
  = (fun k => k + k / 4 + 1) <$> seq 0 (n - (n + 4) / 5).
Proof.
  induction n as [|n IH]; [done|].
  rewrite seq_S, filter_app, IH, Nat.add_0_l, filter_cons, filter_nil.
  destruct (cases_mod_5 n) as (q & r & Hn & Hr & Hm & Hc & Hc').
  replace (S n + 4) with (n + 5) by lia. rewrite Hc', Hc, Hm.
  destruct r as [|r].
  - rewrite decide_False by (intros H; by apply H). by rewrite app_nil_r.
  - rewrite decide_True by done.
    replace (S n - S q) with (S (n - S q)) by lia.
    assert ((n - S q) / 4 = q) as Hd.
    { symmetry. apply (Nat.div_unique _ _ _ r); lia. }
    rewrite seq_S, fmap_app, Nat.add_0_l. f_equal.
    unfold fmap. cbn [list_fmap]. rewrite Hd. f_equal. lia.
Qed.

End SplitArithmetic.

Section GSM8kDatasetFacts.
Import GSM8k.
Context {Float Config ConfigDict : Type}.
Context (py_float : string -> Outcome Float).
Context (CalculatorEnvConfig_default : Config).
Context (CalculatorEnvConfig_validate : ConfigDict -> Outcome Config).
Context (repr : string -> string).
Context (load_dataset : string -> string -> gmap string string -> Outcome (list Example)).

#[local] Abbreviation init :=
  (__init__ py_float CalculatorEnvConfig_default CalculatorEnvConfig_validate repr
     load_dataset).
#[local] Abbreviation extract := (extract_answer py_float).
#[local] Abbreviation Dataset := (GSM8kDataset (Float := Float) (Config := Config)).

(** The keyword arguments of [load_dataset] for a source. *)
#[local] Abbreviation kw_of hf_source :=
  (if decide (hf_source = GSM8K_PUBLIC_SOURCE)
   then ({[ "name" := "main" ]} : gmap string string) else ∅).

(** A row of [src_df] made from the row [r] of the loaded frame. *)
#[local] Abbreviation made_from split r row :=
  (index row = r.1 /\ row_question row = question r.2 /\ row_answer row = answer r.2
   /\ row_problem_id row = Split_value split +:+ "_" +:+ decimal (N.of_nat r.1)
   /\ extract (answer r.2) = Return (answer_num row)).

Lemma mapM_Return {A B} (f : A -> Outcome B) (l : list A) (k : list B) :
  mapM f l = Return k <-> Forall2 (fun x y => f x = Return y) l k.
Proof.
  revert k. induction l as [|x l IH]; intros k; simpl.
  - split; [intros [= <-]; constructor|by intros ->%Forall2_nil_inv_l].
  - split.
    + destruct (f x) as [y|e] eqn:Ey; simpl; [|done].
      destruct (mapM f l) as [k'|e] eqn:Ek; simpl; [|done].
      intros [= <-]. constructor; [done|]. by apply IH.
    + intros (y' & k'' & Hy & Hk & ->)%Forall2_cons_inv_l.
      apply IH in Hk. rewrite Hy. simpl. by rewrite Hk.
Qed.

Lemma mapM_Raise {A B} (f : A -> Outcome B) (l : list A) e :
  mapM f l = Raise e -> Exists (fun x => exists e', f x = Raise e') l.
Proof.
  revert e. induction l as [|x l IH]; intros e; simpl; [done|].
  destruct (f x) as [y|e'] eqn:Ey; simpl; [|by left; eauto].
  destruct (mapM f l) as [k'|e'] eqn:Ek; simpl; [done|].
  intros _. right. by apply (IH e').
Qed.

#[local] Abbreviation selected split rows :=
  (if decide (split = train)
   then filter (fun row : nat * Example => row.1 mod 5 <> 0) (reset_index rows)
   else if decide (split = val)
   then filter (fun row : nat * Example => row.1 mod 5 = 0) (reset_index rows)
   else reset_index rows).

#[local] Abbreviation hf_split_of split :=
  (if decide (split = test) then "test" else "train").

Lemma rows_made_from split (df : list (nat * Example)) (nums : list Float) :
  Forall2 (fun r num => extract (answer r.2) = Return num) df nums ->
  Forall2 (fun r row => made_from split r row) df
    (zip_with (fun '(i, ex, id) num =>
                 {| index := i; row_question := question ex; row_answer := answer ex;
                    row_problem_id := id; answer_num := num |})
       (zip df ((fun row => Split_value split +:+ "_" +:+ decimal (N.of_nat row.1)) <$> df))
       nums).
Proof.
  induction 1 as [|[i ex] num df nums Hx _ IH]; simpl; constructor; [|exact IH].
  by repeat split.
Qed.

Lemma init_Return split_s split cfg hf_source rows (ds : Dataset) :
  Split_of repr split_s = Return split ->
  load_dataset hf_source (hf_split_of split) (kw_of hf_source) = Return rows ->
  init split_s cfg hf_source = Return ds ->
  Forall2 (fun r row => made_from split r row) (selected split rows) (src_df ds).
Proof.
  intros Hs Hl. unfold __init__.
  destruct (match cfg with
            | ConfigObject c => Return c
            | ConfigAsDict d => CalculatorEnvConfig_validate d
            | ConfigNone => Return CalculatorEnvConfig_default
            end) as [c|e]; simpl; [|done].
  rewrite Hs. simpl. unfold _get_df_from_hf. rewrite Hl. simpl.
  destruct (mapM _ _) as [nums|e] eqn:Em; [|done].
  intros [= <-]. simpl. apply mapM_Return in Em. by apply rows_made_from.
Qed.

Lemma env_at split (df : list (nat * Example)) (ds : Dataset) i r :
  Forall2 (fun r row => made_from split r row) df (src_df ds) ->
  df !! i = Some r ->
  exists num,
    extract (answer r.2) = Return num
    /\ get_new_env_by_idx ds (Z.of_nat i)
       = Return {| problem_id := Split_value split +:+ "_" +:+ decimal (N.of_nat r.1);
                   problem := question r.2; env_answer := num;
                   env_config := config ds |}.
Proof.
  intros Hrows Hi.
  destruct (Forall2_lookup_l _ _ _ _ _ Hrows Hi) as (row & Hrow & _ & Hq & _ & Hid & Hnum).
  exists (answer_num row). split; [done|].
  pose proof (lookup_lt_Some _ _ _ Hrow) as Hlt.
  unfold get_new_env_by_idx, iloc.
  rewrite decide_True by lia. rewrite decide_False by lia.
  rewrite Nat2Z.id, Hrow. simpl. by rewrite Hid, Hq.
Qed.

Lemma split_envs split (df : list (nat * Example)) (g : nat -> nat) m
    (rows : list Example) (ds : Dataset) :
  Forall2 (fun r row => made_from split r row) df (src_df ds) ->
  df.*1 = g <$> seq 0 m ->
  Forall (fun r => rows !! r.1 = Some r.2) df ->
  __len__ ds = m
  /\ forall i, i < __len__ ds ->
       exists ex num,
         rows !! g i = Some ex
         /\ extract (answer ex) = Return num
         /\ get_new_env_by_idx ds (Z.of_nat i)
            = Return {| problem_id := Split_value split +:+ "_" +:+ decimal (N.of_nat (g i));
                        problem := question ex; env_answer := num;
                        env_config := config ds |}.
Proof.
  intros Hrows Hlab Hin.
  assert (length df = m) as Hlen.
  { rewrite <- (length_fmap fst df), Hlab, length_fmap. apply length_seq. }
  assert (__len__ ds = m) as Hm.
  { unfold __len__. by rewrite <- (Forall2_length _ _ _ Hrows). }
  split; [done|]. intros i Hi. rewrite Hm in Hi.
  destruct (lookup_lt_is_Some_2 df i) as [r Hr]; [lia|].
  assert (r.1 = g i) as Hg.
  { assert (df.*1 !! i = Some r.1) as H1 by (by rewrite list_lookup_fmap, Hr).
    rewrite Hlab, list_lookup_fmap, lookup_seq_lt in H1 by done.
    simpl in H1. by injection H1 as <-. }
  pose proof (Forall_lookup_1 _ _ _ _ Hin Hr) as Hrow. simpl in Hrow.
  destruct (env_at split df ds i r Hrows Hr) as (num & Hnum & Henv).
  exists r.2, num. rewrite <- Hg. by repeat split.
Qed.

(** X16.  The [val] split is every fifth example of the training set of the
    source: it holds [ceil(n / 5)] environments, and the one at position [i]
    is made of the example [5 * i], its identifier is [val_<5 * i>] and its
    answer the number read after [#### ]. *)
Theorem val_split_every_fifth cfg hf_source rows (ds : Dataset) :
  load_dataset hf_source "train" (kw_of hf_source) = Return rows ->
  init "val" cfg hf_source = Return ds ->
  __len__ ds = (length rows + 4) / 5
  /\ forall i, i < __len__ ds ->
       exists ex num,
         rows !! (5 * i) = Some ex
         /\ extract (answer ex) = Return num
         /\ get_new_env_by_idx ds (Z.of_nat i)
            = Return {| problem_id := "val_" +:+ decimal (N.of_nat (5 * i));
                        problem := question ex; env_answer := num;
                        env_config := config ds |}.
Proof.
  intros Hl Hinit.
  apply (split_envs val
           (filter (fun row : nat * Example => row.1 mod 5 = 0) (reset_index rows))
           (fun k => 5 * k)).
  - exact (init_Return "val" val cfg hf_source rows ds eq_refl Hl Hinit).
  - pose proof (reset_index_labels (fun i => i mod 5 = 0) rows) as E.
    etrans; [exact E|apply every_fifth].
  - apply reset_index_rows.
Qed.

(** X17.  The [train] split is the training set of the source without every
    fifth example: it holds [n - ceil(n / 5)] environments, and the one at
    position [i] is made of the example [i + i / 4 + 1], with the identifier
    [train_<i + i / 4 + 1>]: the identifiers skip the multiples of five. *)
Theorem train_split_skips_every_fifth cfg hf_source rows (ds : Dataset) :
  load_dataset hf_source "train" (kw_of hf_source) = Return rows ->
  init "train" cfg hf_source = Return ds ->
  __len__ ds = length rows - (length rows + 4) / 5
  /\ forall i, i < __len__ ds ->
       exists ex num,
         rows !! (i + i / 4 + 1) = Some ex
         /\ extract (answer ex) = Return num
         /\ get_new_env_by_idx ds (Z.of_nat i)
            = Return {| problem_id := "train_" +:+ decimal (N.of_nat (i + i / 4 + 1));
                        problem := question ex; env_answer := num;
                        env_config := config ds |}.
Proof.
  intros Hl Hinit.
  apply (split_envs train
           (filter (fun row : nat * Example => row.1 mod 5 <> 0) (reset_index rows))
           (fun k => k + k / 4 + 1)).
  - exact (init_Return "train" train cfg hf_source rows ds eq_refl Hl Hinit).
  - pose proof (reset_index_labels (fun i => i mod 5 <> 0) rows) as E.
    etrans; [exact E|apply all_but_every_fifth].
  - apply reset_index_rows.
Qed.

(** X18.  The [train_full] and [test] splits keep every example of the
    training set and of the test set of the source: the environment at
    position [i] is made of the example [i] and its identifier is
    [<split>_<i>]. *)
Theorem full_splits_keep_every_example split_s split cfg hf_source rows (ds : Dataset) :
  split = train_full \/ split = test ->
  Split_of repr split_s = Return split ->
  load_dataset hf_source (hf_split_of split) (kw_of hf_source) = Return rows ->
  init split_s cfg hf_source = Return ds ->
  __len__ ds = length rows
  /\ forall i, i < __len__ ds ->
       exists ex num,
         rows !! i = Some ex
         /\ extract (answer ex) = Return num
         /\ get_new_env_by_idx ds (Z.of_nat i)
            = Return {| problem_id := Split_value split +:+ "_" +:+ decimal (N.of_nat i);
                        problem := question ex; env_answer := num;
                        env_config := config ds |}.
Proof.
  intros Hfull Hs Hl Hinit.
  pose proof (init_Return split_s split cfg hf_source rows ds Hs Hl Hinit) as Hrows.
  apply (split_envs split (reset_index rows) (fun k => k)).
  - by destruct Hfull as [-> | ->].
  - by rewrite reset_index_all_labels, list_fmap_id.
  - apply reset_index_all_rows.
Qed.

(** X19.  [train] and [val] divide the training set of the source between
    them: the index labels of the two frames together are the labels
    [0 .. n-1], each one once, so no example is in both splits and none is
    left out. *)
Theorem train_val_partition cfg1 cfg2 hf_source rows (ds_train ds_val : Dataset) :
  load_dataset hf_source "train" (kw_of hf_source) = Return rows ->
  init "train" cfg1 hf_source = Return ds_train ->
  init "val" cfg2 hf_source = Return ds_val ->
  (index <$> src_df ds_val) ++ (index <$> src_df ds_train) ≡ₚ seq 0 (length rows)
  /\ __len__ ds_train + __len__ ds_val = length rows.
Proof.
  intros Hl Ht Hv.
  assert (Forall2 (fun r row => made_from train r row)
            (filter (fun row : nat * Example => row.1 mod 5 <> 0) (reset_index rows))
            (src_df ds_train)) as Rt
    by exact (init_Return "train" train cfg1 hf_source rows ds_train eq_refl Hl Ht).
  assert (Forall2 (fun r row => made_from val r row)
            (filter (fun row : nat * Example => row.1 mod 5 = 0) (reset_index rows))
            (src_df ds_val)) as Rv
    by exact (init_Return "val" val cfg2 hf_source rows ds_val eq_refl Hl Hv).
  assert (forall split (df : list (nat * Example)) (ds : Dataset),
            Forall2 (fun r row => made_from split r row) df (src_df ds) ->
            index <$> src_df ds = df.*1) as Hidx.
  { intros split df ds H. induction H as [|r row df l (Hi & _) _ IH]; [done|].
    by rewrite !fmap_cons, Hi, IH. }
  assert ((index <$> src_df ds_val) ++ (index <$> src_df ds_train)
          ≡ₚ seq 0 (length rows)) as Hp.
  { rewrite (Hidx _ _ _ Rt), (Hidx _ _ _ Rv).
    pose proof (reset_index_labels (fun i => i mod 5 = 0) rows) as Ev.
    pose proof (reset_index_labels (fun i => i mod 5 <> 0) rows) as Et.
    cbv beta in Ev, Et. rewrite Ev, Et.
    apply filter_app_complement. }
  split; [exact Hp|].
  apply Permutation_length in Hp. rewrite length_app, !length_fmap, length_seq in Hp.
  unfold __len__. lia.
Qed.

#[local] Abbreviation kept split j :=
  (match split with
   | train => j mod 5 <> 0
   | val => j mod 5 = 0
   | _ => True
   end).

Lemma reset_index_elem_of {A} (rows : list A) j x :
  (j, x) ∈ reset_index rows <-> rows !! j = Some x.
Proof.
  unfold reset_index. rewrite list_elem_of_lookup. split.
  - intros [k Hk]. rewrite list_lookup_imap in Hk.
    destruct (rows !! k) eqn:E; simpl in Hk; [|done]. by injection Hk as <- <-.
  - intros Hj. exists j. by rewrite list_lookup_imap, Hj.
Qed.

Lemma selected_elem_of split (rows : list Example) j ex :
  (j, ex) ∈ selected split rows <-> rows !! j = Some ex /\ kept split j.
Proof.
  destruct split; simpl; rewrite ?list_elem_of_filter, reset_index_elem_of; simpl; tauto.
Qed.

(** X20.  The constructor fails on the answers of its own split only: when
    the source loads and the split and the configuration are valid, it
    returns a dataset exactly when the answer of every example kept for the
    split holds a number after [#### ], and raises the [RuntimeError]
    otherwise; an answer without a number in an example left out does no
    harm. *)
Theorem constructor_fails_on_own_split split_s split cfg c hf_source rows :
  match cfg with
  | ConfigObject c => Return c
  | ConfigAsDict d => CalculatorEnvConfig_validate d
  | ConfigNone => Return CalculatorEnvConfig_default
  end = Return c ->
  Split_of repr split_s = Return split ->
  load_dataset hf_source (hf_split_of split) (kw_of hf_source) = Return rows ->
  ((exists ds, init split_s cfg hf_source = Return ds)
   <-> forall j ex, rows !! j = Some ex -> kept split j ->
         exists num, extract (answer ex) = Return num)
  /\ ((exists ds, init split_s cfg hf_source = Return ds)
      \/ init split_s cfg hf_source
         = Raise (RuntimeError "Failed to extract numerical answer from 'answer' column")).
Proof.
  intros Hc Hs Hl. unfold __init__. rewrite Hc. simpl. rewrite Hs. simpl.
  unfold _get_df_from_hf. rewrite Hl. simpl.
  destruct (mapM _ _) as [nums|e] eqn:Em.
  - split; [|by eauto]. split; [|by eauto].
    intros _ j ex Hj Hk. apply mapM_Return in Em.
    assert ((j, ex) ∈ selected split rows) as Hin by (by apply selected_elem_of).
    apply list_elem_of_lookup in Hin as [k Hin].
    destruct (Forall2_lookup_l _ _ _ _ _ Em Hin) as (num & _ & Hnum). by exists num.
  - split; [|by right]. split; [by intros [ds ?]|].
    intros Hall. apply mapM_Raise in Em.
    apply list.Exists_exists in Em as ([j ex] & Hin & e' & He').
    apply selected_elem_of in Hin as [Hj Hk].
    destruct (Hall j ex Hj Hk) as [num Hnum]. simpl in He'. congruence.
Qed.

End GSM8kDatasetFacts.

Section GSM8kDatasetExamples.
Import GSM8k GSM8kFixtures.

Lemma val_split_every_fifth_witness :
  load_seven GSM8K_PUBLIC_SOURCE "train" {[ "name" := "main" ]} = Return seven_examples
  /\ exists ds,
       make load_seven "val" = Return ds
       /\ __len__ ds = 2
       /\ get_new_env_by_idx ds 1
          = Return {| problem_id := "val_5"; problem := "q5"; env_answer := 15%N;
                      env_config := tt |}.
Proof.
  split; [reflexivity|].
  destruct (make load_seven "val") as [[[] df]|e] eqn:Hds; [|discriminate Hds].
  set (ds := {| config := tt; src_df := df |}) in *.
  exists ds. split; [reflexivity|].
  destruct (val_split_every_fifth float_of_digits tt (fun d : unit => Return d) quoted
              load_seven ConfigNone GSM8K_PUBLIC_SOURCE seven_examples ds eq_refl Hds)
    as [Hlen Henv].
  split; [exact Hlen|].
  destruct (Henv 1) as (ex & num & Hex & Hnum & Hget); [rewrite Hlen; vm_compute; lia|].
  injection Hex as <-. vm_compute in Hnum. injection Hnum as <-. exact Hget.
Defined.

Lemma train_split_skips_every_fifth_witness :
  load_seven GSM8K_PUBLIC_SOURCE "train" {[ "name" := "main" ]} = Return seven_examples
  /\ exists ds,
       make load_seven "train" = Return ds
       /\ __len__ ds = 5
       /\ get_new_env_by_idx ds 4
          = Return {| problem_id := "train_6"; problem := "q6"; env_answer := 16%N;
                      env_config := tt |}.
Proof.
  split; [reflexivity|].
  destruct (make load_seven "train") as [[[] df]|e] eqn:Hds; [|discriminate Hds].
  set (ds := {| config := tt; src_df := df |}) in *.
  exists ds. split; [reflexivity|].
  destruct (train_split_skips_every_fifth float_of_digits tt (fun d : unit => Return d)
              quoted load_seven ConfigNone GSM8K_PUBLIC_SOURCE seven_examples ds
              eq_refl Hds) as [Hlen Henv].
  split; [exact Hlen|].
  destruct (Henv 4) as (ex & num & Hex & Hnum & Hget); [rewrite Hlen; vm_compute; lia|].
  injection Hex as <-. vm_compute in Hnum. injection Hnum as <-. exact Hget.
Defined.

Lemma full_splits_keep_every_example_witness :
  (test = train_full \/ test = test)
  /\ Split_of quoted "test" = Return test
  /\ load_seven GSM8K_PUBLIC_SOURCE "test" {[ "name" := "main" ]}
     = Return [example_of "t0" "1"; example_of "t1" "2"]
  /\ exists ds,
       make load_seven "test" = Return ds
       /\ __len__ ds = 2
       /\ get_new_env_by_idx ds 1
          = Return {| problem_id := "test_1"; problem := "t1"; env_answer := 2%N;
                      env_config := tt |}.
Proof.
  split; [by right|]. split; [reflexivity|]. split; [reflexivity|].
  destruct (make load_seven "test") as [[[] df]|e] eqn:Hds; [|discriminate Hds].
  set (ds := {| config := tt; src_df := df |}) in *.
  exists ds. split; [reflexivity|].
  destruct (full_splits_keep_every_example float_of_digits tt (fun d : unit => Return d)
              quoted load_seven "test" test ConfigNone GSM8K_PUBLIC_SOURCE
              [example_of "t0" "1"; example_of "t1" "2"] ds
              (or_intror eq_refl) eq_refl eq_refl Hds) as [Hlen Henv].
  split; [exact Hlen|].
  destruct (Henv 1) as (ex & num & Hex & Hnum & Hget); [rewrite Hlen; vm_compute; lia|].
  injection Hex as <-. vm_compute in Hnum. injection Hnum as <-. exact Hget.
Defined.

Lemma train_val_partition_witness :
  load_seven GSM8K_PUBLIC_SOURCE "train" {[ "name" := "main" ]} = Return seven_examples
  /\ exists ds_train ds_val,
       make load_seven "train" = Return ds_train
       /\ make load_seven "val" = Return ds_val
       /\ (index <$> src_df ds_val) ++ (index <$> src_df ds_train) ≡ₚ seq 0 7
       /\ __len__ ds_train + __len__ ds_val = 7.
Proof.
  split; [reflexivity|].
  destruct (make load_seven "train") as [ds_train|e] eqn:Ht; [|discriminate Ht].
  destruct (make load_seven "val") as [ds_val|e] eqn:Hv; [|discriminate Hv].
  exists ds_train, ds_val. split; [reflexivity|]. split; [reflexivity|].
  exact (train_val_partition float_of_digits tt (fun d : unit => Return d) quoted
           load_seven ConfigNone ConfigNone GSM8K_PUBLIC_SOURCE seven_examples
           ds_train ds_val eq_refl Ht Hv).
Defined.

Lemma constructor_fails_on_own_split_witness :
  Split_of quoted "val" = Return val
  /\ load_malformed GSM8K_PUBLIC_SOURCE "train" {[ "name" := "main" ]}
     = Return one_malformed
  /\ (exists ds, make load_malformed "val" = Return ds)
  /\ (forall j ex, one_malformed !! j = Some ex -> j mod 5 = 0 ->
        exists num, extract_answer float_of_digits (answer ex) = Return num).
Proof.
  split; [reflexivity|]. split; [reflexivity|].
  assert (exists ds, make load_malformed "val" = Return ds) as Hds
    by (eexists; reflexivity).
  split; [exact Hds|].
  exact (proj1 (proj1 (constructor_fails_on_own_split float_of_digits tt
                         (fun d : unit => Return d) quoted load_malformed
                         "val" val ConfigNone tt GSM8K_PUBLIC_SOURCE one_malformed
                         eq_refl eq_refl eq_refl)) Hds).
Defined.

End GSM8kDatasetExamples.

(* ===================================================================== *)
(** * GSM8kDataset: the number in an answer *)
(* ===================================================================== *)

Section ExtractAnswer.
Import GSM8k GSM8kMore.
Context {Float : Type} (py_float : string -> Outcome Float).

Lemma prefix_hash_free c rest :
  Ascii.eqb c hash = false -> String.prefix "#### " (String c rest) = false.
Proof.
  intros Hc. cbn [String.prefix]. destruct (Ascii.ascii_dec _ c) as [<-|]; [|done].
  by vm_compute in Hc.
Qed.

Lemma split_from_hash_free cur s :
  hash_free s = true -> split_from "#### " 0 cur s = [cur +:+ s].
Proof.
  revert cur. induction s as [|c s IH]; intros cur Hs.
  - by rewrite append_nil_r.
  - simpl in Hs. apply andb_prop in Hs as [Hc Hs]. apply negb_true_iff in Hc.
    cbn [split_from]. rewrite (prefix_hash_free c s Hc), (IH _ Hs).
    by rewrite snoc_append.
Qed.

Lemma split_from_marker cur text num :
  hash_free text = true -> hash_free num = true ->
  split_from "#### " 0 cur (text +:+ "#### " +:+ num) = [cur +:+ text; num].
Proof.
  intros Ht Hn. revert cur. induction text as [|c text IH]; intros cur.
  - change ("" +:+ "#### " +:+ num) with
      (String hash (String hash (String hash (String hash (String (Ascii.ascii_of_nat 32) num))))).
    cbn [split_from]. 
    assert (String.prefix "#### "
              (String hash (String hash (String hash (String hash (String (Ascii.ascii_of_nat 32) num)))))
            = true) as ->.
    { cbn [String.prefix]. repeat (destruct (Ascii.ascii_dec _ _) as [_|Hne]; [|by destruct Hne]).
      by destruct num. }
    simpl String.length. cbn [Nat.sub split_from].
    by rewrite (split_from_hash_free "" num Hn), append_nil_r.
  - simpl in Ht. apply andb_prop in Ht as [Hc Ht]. apply negb_true_iff in Hc.
    rewrite append_cons. cbn [split_from].
    rewrite (prefix_hash_free c _ Hc), (IH Ht). by rewrite snoc_append.
Qed.

(** X21.  An answer written as [<text>#### <number>], with no [#] in the
    text or in the number, gives the float of the number with its commas
    removed; an answer without any [#] gives no number: the extraction raises
    [IndexError]. *)
Theorem extract_answer_reads_number text num :
  hash_free text = true -> hash_free num = true ->
  extract_answer py_float (text +:+ "#### " +:+ num) = py_float (str_remove num comma)
  /\ extract_answer py_float text = Raise (IndexError "list index out of range").
Proof.
  intros Ht Hn. unfold extract_answer, str_split. split.
  - by rewrite (split_from_marker "" text num Ht Hn).
  - by rewrite (split_from_hash_free "" text Ht).
Qed.

End ExtractAnswer.

Section ExtractAnswerExamples.
Import GSM8k GSM8kMore GSM8kFixtures.

Lemma extract_answer_reads_number_witness :
  hash_free "She has 1200 in all." = true
  /\ hash_free "1,200" = true
  /\ extract_answer float_of_digits ("She has 1200 in all." +:+ "#### " +:+ "1,200")
     = Return 1200%N
  /\ extract_answer float_of_digits "She has 1200 in all."
     = Raise (IndexError "list index out of range").
Proof.
  split; [reflexivity|]. split; [reflexivity|].
  exact (extract_answer_reads_number float_of_digits "She has 1200 in all." "1,200"
           eq_refl eq_refl).
Defined.

End ExtractAnswerExamples.
